(** * Text-Based-BlackJack: a shallow embedding of [blackjack.py]

    The Python classes [Card], [Deck], [Shoe], [Hand], [Player], [User],
    [Dealer] and [Game] are rendered as records with explicit state
    passing.  Python integers are [Z].  A Python list is a Rocq list in
    index order, so [list.append] adds at the right end and [list.pop()]
    removes from the right end. *)

From Stdlib Require Import ZArith List Bool Ascii String Lia Permutation QArith DecimalString DecimalPos.
From stdpp Require Import base option gmap.
Import ListNotations.
Open Scope string_scope.
Open Scope list_scope.
Open Scope Z_scope.

(** ** Enumerations *)

Inductive Suit := clubs | diamonds | hearts | spades.

Inductive Rank :=
  | ace | two | three | four | five | six | seven
  | eight | nine | ten | jack | queen | king.

(** Definition order of the members, which is the iteration order of a
    Python [Enum] class. *)
Definition all_suits : list Suit := [clubs; diamonds; hearts; spades].

Definition all_ranks : list Rank :=
  [ace; two; three; four; five; six; seven; eight; nine; ten; jack; queen; king].

(** The [value] attribute of each enumeration member. *)
Definition Suit_value (s : Suit) : string :=
  match s with
  | clubs => "Clubs" | diamonds => "Diamonds"
  | hearts => "Hearts" | spades => "Spades"
  end.

Definition Rank_value (r : Rank) : string :=
  match r with
  | ace => "Ace" | two => "2" | three => "3" | four => "4" | five => "5"
  | six => "6" | seven => "7" | eight => "8" | nine => "9" | ten => "10"
  | jack => "Jack" | queen => "Queen" | king => "King"
  end.

Definition Rank_eqb (a b : Rank) : bool :=
  match a, b with
  | ace, ace | two, two | three, three | four, four | five, five
  | six, six | seven, seven | eight, eight | nine, nine | ten, ten
  | jack, jack | queen, queen | king, king => true
  | _, _ => false
  end.

(** ** Text primitives

    A text is a sequence of code points below 256, that is ASCII and the
    Latin-1 supplement, one code point per [ascii].  On such text
    [isdigit], [strip] and [lower] are the Python [str] methods, and
    [int] is the built-in applied to a text of digit characters.  Text
    with a code point from 256 on is outside the model. *)

(** The decimal digits [0] to [9], the only characters below 256 that
    [int] reads as a digit. *)
Definition is_decimal_char (c : ascii) : bool :=
  let n := N_of_ascii c in (48 <=? n)%N && (n <=? 57)%N.

(** The characters below 256 for which [str.isdigit] holds: the decimal
    digits and the superscripts two (178), three (179) and one (185). *)
Definition is_digit_char (c : ascii) : bool :=
  let n := N_of_ascii c in
  is_decimal_char c || (n =? 178)%N || (n =? 179)%N || (n =? 185)%N.

Fixpoint all_digits (s : string) : bool :=
  match s with
  | EmptyString => true
  | String c r => is_digit_char c && all_digits r
  end.

Fixpoint all_decimal (s : string) : bool :=
  match s with
  | EmptyString => true
  | String c r => is_decimal_char c && all_decimal r
  end.

(** [str.isdigit]: every character is a digit and there is at least one. *)
Definition isdigit (s : string) : bool :=
  match s with
  | EmptyString => false
  | _ => all_digits s
  end.

Fixpoint int_acc (acc : Z) (s : string) : Z :=
  match s with
  | EmptyString => acc
  | String c r => int_acc (10 * acc + (Z.of_N (N_of_ascii c) - 48)) r
  end.

(** The longest numeral that [int] converts: the default of
    [sys.int_max_str_digits] (CPython 3.11 and later). *)
Definition int_max_str_digits : Z := 4300.

(** [int(s)] on a text without sign, blank or underscore, which is all
    the game passes to it; [None] stands for [ValueError].  [int] reads
    a non-empty text of decimal digits, leading zeros included, of at
    most [int_max_str_digits] characters; it raises on a longer one and
    on a character that is not a decimal digit, the superscripts that
    [isdigit] accepts among them. *)
Definition int (s : string) : option Z :=
  match s with
  | EmptyString => None
  | _ =>
      if all_decimal s && (Z.of_nat (String.length s) <=? int_max_str_digits)
      then Some (int_acc 0 s)
      else None
  end.

(** The characters below 256 for which [str.isspace] holds, which are
    those [str.strip] removes: the ASCII blanks and separators, the next
    line control (133) and the no-break space (160). *)
Definition is_space_char (c : ascii) : bool :=
  let n := N_of_ascii c in
  ((9 <=? n)%N && (n <=? 13)%N) || ((28 <=? n)%N && (n <=? 32)%N) ||
  (n =? 133)%N || (n =? 160)%N.

Fixpoint lstrip (s : string) : string :=
  match s with
  | EmptyString => EmptyString
  | String c r => if is_space_char c then lstrip r else s
  end.

Fixpoint rstrip (s : string) : string :=
  match s with
  | EmptyString => EmptyString
  | String c r =>
      match rstrip r with
      | EmptyString => if is_space_char c then EmptyString else String c EmptyString
      | r' => String c r'
      end
  end.

Definition strip (s : string) : string := rstrip (lstrip s).

(** [str.lower] on one character below 256: the capital letters of
    ASCII (65 to 90) and of Latin-1 (192 to 222, the multiplication sign
    215 apart) move up by 32. *)
Definition lower_char (c : ascii) : ascii :=
  let n := N_of_ascii c in
  if ((65 <=? n)%N && (n <=? 90)%N) ||
     ((192 <=? n)%N && (n <=? 222)%N && negb (n =? 215)%N)
  then ascii_of_N (n + 32) else c.

Fixpoint lower (s : string) : string :=
  match s with
  | EmptyString => EmptyString
  | String c r => String (lower_char c) (lower r)
  end.

(** Membership of a string in a tuple of strings, as in [answer in (...)]. *)
Definition str_in (s : string) (l : list string) : bool :=
  existsb (String.eqb s) l.

(** ** Card *)

Record Card := mkCard { rank : Rank; suit : Suit }.

Definition is_ace (c : Card) : bool := Rank_eqb (rank c) ace.

Definition is_face (c : Card) : bool :=
  Rank_eqb (rank c) jack || Rank_eqb (rank c) queen || Rank_eqb (rank c) king.

(** [Card.__str__] *)
Definition Card_str (c : Card) : string :=
  (Rank_value (rank c) ++ " of " ++ Suit_value (suit c))%string.

(** ** Deck *)

(** [Deck.__init__]: the comprehension iterates ranks in the outer loop
    and suits in the inner loop. *)
Definition Deck_cards : list Card :=
  flat_map (fun r => map (fun s => mkCard r s) all_suits) all_ranks.

(** ** Hand *)

Record Hand := mkHand {
  hand_cards : list Card;
  hand_value : Z;
  number_of_aces : Z
}.

Definition Hand_init : Hand := mkHand [] 0 0.

(** The numeric value of a rank that is neither an ace nor a face card,
    read from its label as [int(card.rank.value)] does.  The labels of
    those ranks are decimal numerals, see [int_numeral]. *)
Definition rank_int (r : Rank) : Z :=
  match int (Rank_value r) with
  | Some n => n
  | None => 0
  end.

Definition update_hand_value (card : Card) (h : Hand) : Hand :=
  let h1 :=
    if is_ace card then
      mkHand (hand_cards h) (hand_value h + 11) (number_of_aces h + 1)
    else if is_face card then
      mkHand (hand_cards h) (hand_value h + 10) (number_of_aces h)
    else
      mkHand (hand_cards h) (hand_value h + rank_int (rank card)) (number_of_aces h) in
  if (hand_value h1 >? 21) && (number_of_aces h1 >? 0) then
    mkHand (hand_cards h1) (hand_value h1 - 10) (number_of_aces h1 - 1)
  else h1.

Definition Hand_add_card (card : Card) (h : Hand) : Hand :=
  update_hand_value card
    (mkHand (hand_cards h ++ [card]) (hand_value h) (number_of_aces h)).

(** [Hand.reset_hand] returns the cards held and the emptied hand. *)
Definition reset_hand (h : Hand) : list Card * Hand :=
  (hand_cards h, mkHand [] 0 0).

(** A hand built by adding a sequence of cards, first card first. *)
Definition add_cards (cs : list Card) (h : Hand) : Hand :=
  fold_left (fun acc c => Hand_add_card c acc) cs h.

(** ** Randomness

    [random.shuffle] belongs to the Python standard library.  It is
    modelled as the Fisher-Yates loop that CPython runs, drawing its
    indices from an explicit entropy source: a sequence of raw draws and
    a cursor into it. *)

Record Random := mkRandom { entropy : nat -> nat; cursor : nat }.

(** [randbelow n]: an index in [0, n). *)
Definition randbelow (n : nat) (r : Random) : nat * Random :=
  (Nat.modulo (entropy r (cursor r)) n, mkRandom (entropy r) (S (cursor r))).

(** [x[i], x[j] = x[j], x[i]]: the right-hand side is read first, then
    index [i] is assigned, then index [j]. *)
Definition swap {A} (i j : nat) (l : list A) : list A :=
  match l !! i, l !! j with
  | Some xi, Some xj => <[j := xi]> (<[i := xj]> l)
  | _, _ => l
  end.

(** [for i in reversed(range(1, len(x)))]: [shuffle_from i] runs the
    iterations for indices [i, i-1, ..., 1]. *)
Fixpoint shuffle_from {A} (i : nat) (l : list A) (r : Random) : list A * Random :=
  match i with
  | O => (l, r)
  | S k =>
      let (j, r') := randbelow (S i) r in
      shuffle_from k (swap i j l) r'
  end.

Definition shuffle {A} (l : list A) (r : Random) : list A * Random :=
  shuffle_from (Nat.pred (length l)) l r.

(** ** Shoe *)

Record Shoe := mkShoe {
  cards : list Card;
  garbage_pile : list Card;
  card_counter : Z;
  total_cards : Z
}.

(** [list.pop()]: the last element and the list without it, [None] on an
    empty list. *)
Definition pop {A} (l : list A) : option (A * list A) :=
  match rev l with
  | [] => None
  | x :: r => Some (x, rev r)
  end.

(** [Shoe.__init__] *)
Definition Shoe_init (number_of_decks : Z) (r : Random) : Shoe * Random :=
  let number_of_decks := if number_of_decks <? 1 then 1 else number_of_decks in
  let cs := Nat.iter (Z.to_nat number_of_decks) (fun acc => acc ++ Deck_cards) [] in
  let (cs', r') := shuffle cs r in
  (mkShoe cs' [] 0 (Z.of_nat (length cs')), r').

Definition deal_card (s : Shoe) : option Card * Shoe :=
  match pop (cards s) with
  | None => (None, s)
  | Some (c, rest) =>
      (Some c, mkShoe rest (garbage_pile s) (card_counter s + 1) (total_cards s))
  end.

Definition get_cards_to_garbage_pile (discarded_cards : list Card) (s : Shoe) : Shoe :=
  mkShoe (cards s) (garbage_pile s ++ discarded_cards) (card_counter s) (total_cards s).

(** [total_cards / 2 < card_counter] with Python's true division.  The
    quotient is computed over the rationals: [total_cards] is a list
    length, far below 2^53, so the floating-point quotient is exact, and
    Python compares a float with an int exactly. *)
Definition half_lt (total counter : Z) : bool :=
  match Qcompare (inject_Z total / 2)%Q (inject_Z counter) with
  | Lt => true
  | _ => false
  end.

(** [Shoe.shuffle_required] returns its answer together with the shoe
    it was called on. *)
Definition shuffle_required (s : Shoe) : bool * Shoe :=
  (half_lt (total_cards s) (card_counter s), s).

Definition shuffle_cards (s : Shoe) (r : Random) : Shoe * Random :=
  let cs := cards s ++ garbage_pile s in
  let (cs', r') := shuffle cs r in
  (mkShoe cs' [] 0 (total_cards s), r').

(** ** Players *)

Record User := mkUser { user_hand : Hand; chips : Z }.

Record Dealer := mkDealer { dealer_hand : Hand }.

Definition can_hit (h : Hand) : bool := hand_value h <? 21.

Definition is_bust (h : Hand) : bool := hand_value h >? 21.

Definition has_chips (u : User) : bool := chips u >? 0.

Definition add_chips (n : Z) (u : User) : User := mkUser (user_hand u) (chips u + n).

Definition remove_chips (n : Z) (u : User) : User := mkUser (user_hand u) (chips u - n).

Definition advised_to_hit (d : Dealer) : bool := hand_value (dealer_hand d) <? 17.

(** [User.__init__] with its default of 100 chips, and [Dealer.__init__]. *)
Definition User_init : User := mkUser Hand_init 100.

Definition Dealer_init : Dealer := mkDealer Hand_init.

(** ** Exceptions, the world and the monad of the game

    [GameError] carries the message it was built with.  [AttributeError]
    is what Python raises when a method is called on [None],
    [IndexError] when a list is indexed out of range, and [ValueError]
    when [int] is given a text it does not read. *)

Inductive exn :=
  | GameError (value : string)
  | AttributeError
  | IndexError
  | ValueError.

Inductive PlayerOption := stand | hit.

Record Game := mkGame { dealer : Dealer; user : User; shoe : Shoe }.

(** The world is the [Game] object, the lines still to be read from
    standard input, the texts written to standard output so far, and
    the entropy source. *)
Record World := mkWorld {
  game : Game;
  stdin : list string;
  stdout : list string;
  random : Random
}.

(** A computation returns normally, raises, or exhausts the fuel that
    bounds its [while] loop.  The world at the point of the raise is kept:
    [main] goes on to read the chips after a [GameError]. *)
Inductive outcome (A : Type) :=
  | Ok (a : A) (w : World)
  | Raised (e : exn) (w : World)
  | OutOfFuel.
Arguments Ok {A} a w.
Arguments Raised {A} e w.
Arguments OutOfFuel {A}.

Definition M (A : Type) : Type := World -> outcome A.

Definition ret {A} (a : A) : M A := fun w => Ok a w.

Definition bind {A B} (m : M A) (f : A -> M B) : M B :=
  fun w =>
    match m w with
    | Ok a w' => f a w'
    | Raised e w' => Raised e w'
    | OutOfFuel => OutOfFuel
    end.

Definition raise {A} (e : exn) : M A := fun w => Raised e w.

Notation "x <- m ;; k" := (bind m (fun x => k))
  (at level 100, m at next level, right associativity).
Notation "m ;;; k" := (bind m (fun _ => k))
  (at level 100, right associativity).

Definition get_game : M Game := fun w => Ok (game w) w.

Definition put_game (g : Game) : M unit :=
  fun w => Ok tt (mkWorld g (stdin w) (stdout w) (random w)).

Definition get_user : M User := g <- get_game ;; ret (user g).

Definition get_dealer : M Dealer := g <- get_game ;; ret (dealer g).

Definition put_user (u : User) : M unit :=
  g <- get_game ;; put_game (mkGame (dealer g) u (shoe g)).

Definition put_dealer (d : Dealer) : M unit :=
  g <- get_game ;; put_game (mkGame d (user g) (shoe g)).

Definition put_shoe (s : Shoe) : M unit :=
  g <- get_game ;; put_game (mkGame (dealer g) (user g) s).

(** ** Printing *)

Definition nl : string := String "010" EmptyString.

(** [str] of an integer, for the integers of at most 4300 digits, which
    are those CPython converts. *)
Definition str_int (z : Z) : string := NilZero.string_of_int (Z.to_int z).

(** [str] of what [deal_card] returned. *)
Definition str_card (c : option Card) : string :=
  match c with
  | Some card => Card_str card
  | None => "None"
  end.

(** [Hand.__str__] *)
Definition Hand_str (h : Hand) : string :=
  String.concat nl (map Card_str (hand_cards h)).

Definition write (text : string) : M unit :=
  fun w => Ok tt (mkWorld (game w) (stdin w) (stdout w ++ [text]) (random w)).

(** [print] with one argument, and with two, which it separates by a
    space. *)
Definition print (text : string) : M unit := write (text ++ nl)%string.

Definition print2 (a b : string) : M unit := print (a ++ " " ++ b)%string.

Definition print_hand_and_value (h : Hand) : M unit :=
  print (Hand_str h) ;;;
  print2 "The hand value is" (str_int (hand_value h)).

Definition print_initial_dealer_hand (d : Dealer) : M unit :=
  match hand_cards (dealer_hand d) with
  | [] => raise IndexError
  | card :: _ => print (Card_str card) ;;; print "Hidden Card"
  end.

(** ** Reading the answers

    [input(prompt)] writes the prompt, then takes the next line of
    standard input, and raises [EOFError] at its end.  The three readers
    of the game run the same loop: ask until an answer is acceptable,
    complain after each one that is not, and turn [EOFError] into a
    [GameError].  The test of an answer either accepts the line, with
    what it stands for, or refuses it, or raises.  [ask] is that loop,
    by recursion on the lines still to be read; it returns how the loop
    ended, the lines left and the texts written. *)

Inductive answer (A : Type) :=
  | Accepted (a : A)
  | Refused
  | Failed (e : exn).
Arguments Accepted {A} a.
Arguments Refused {A}.
Arguments Failed {A} e.

(** A test that cannot raise. *)
Definition answer_of {A} (o : option A) : answer A :=
  match o with
  | Some a => Accepted a
  | None => Refused
  end.

Inductive reply (A : Type) :=
  | Answer (a : A)
  | EndOfInput
  | Raises (e : exn).
Arguments Answer {A} a.
Arguments EndOfInput {A}.
Arguments Raises {A} e.

Fixpoint ask {A} (prompt complaint : string) (accept : string -> answer A)
    (lines : list string) : reply A * list string * list string :=
  match lines with
  | [] => (EndOfInput, [], [prompt])
  | line :: rest =>
      match accept line with
      | Accepted a => (Answer a, rest, [prompt])
      | Failed e => (Raises e, rest, [prompt])
      | Refused =>
          let '(a, rest', out) := ask prompt complaint accept rest in
          (a, rest', prompt :: (complaint ++ nl)%string :: out)
      end
  end.

(** The [try] around the loop catches [EOFError] only: what the test
    raises goes through. *)
Definition asking {A} (prompt complaint : string) (accept : string -> answer A) : M A :=
  fun w =>
    let '(a, rest, out) := ask prompt complaint accept (stdin w) in
    let w' := mkWorld (game w) rest (stdout w ++ out) (random w) in
    match a with
    | Answer x => Ok x w'
    | EndOfInput => Raised (GameError "EOFError") w'
    | Raises e => Raised e w'
    end.

(** [number.isdigit() and min_bet <= int(number) <= max_bet]: [int] is
    reached on the texts that [isdigit] accepts and raises [ValueError]
    on those of them it does not read. *)
Definition accept_bet (min_bet max_bet : Z) (line : string) : answer Z :=
  let number := strip line in
  if isdigit number then
    match int number with
    | Some n => if (min_bet <=? n) && (n <=? max_bet) then Accepted n else Refused
    | None => Failed ValueError
    end
  else Refused.

Definition accept_move (line : string) : option PlayerOption :=
  let answer := lower (strip line) in
  if str_in answer ["h"; "hit"] then Some hit
  else if str_in answer ["s"; "stand"] then Some stand
  else None.

Definition accept_yes_no (line : string) : option bool :=
  let answer := lower (strip line) in
  if str_in answer ["y"; "ya"; "yes"; "yup"] then Some true
  else if str_in answer ["n"; "no"; "nope"] then Some false
  else None.

Definition number_of_chips_to_bet : M Z :=
  u <- get_user ;;
  let min_bet := 1 in
  let max_bet := chips u in
  let prompt := ("Please place a bet between " ++ str_int min_bet ++ " and " ++
                 str_int max_bet ++ " chips. ")%string in
  if min_bet >? max_bet then raise (GameError "Min/Max bet error")
  else asking prompt "Invalid input for bet." (accept_bet min_bet max_bet).

Definition user_response (prompt : string) : M PlayerOption :=
  asking prompt "Invalid input." (fun line => answer_of (accept_move line)).

Definition yes_or_no (prompt : string) : M bool :=
  asking prompt "Please respond yes or no." (fun line => answer_of (accept_yes_no line)).

(** ** Dealing into a hand *)

(** [self.shoe.deal_card()] *)
Definition shoe_deal_card : M (option Card) :=
  g <- get_game ;;
  let (c, s) := deal_card (shoe g) in
  put_shoe s ;;; ret c.

(** [Player.add_card] through [Hand.add_card] on the value [deal_card]
    returned.  On [None] the call [card.is_ace()] raises; the [None]
    that [append] stored just before is not represented, since nothing
    reads the hand after that exception. *)
Definition hand_add (c : option Card) (h : Hand) : M Hand :=
  match c with
  | Some card => ret (Hand_add_card card h)
  | None => raise AttributeError
  end.

Definition user_add_card (c : option Card) : M unit :=
  u <- get_user ;;
  h <- hand_add c (user_hand u) ;;
  put_user (mkUser h (chips u)).

Definition dealer_add_card (c : option Card) : M unit :=
  d <- get_dealer ;;
  h <- hand_add c (dealer_hand d) ;;
  put_dealer (mkDealer h).

(** ** Game *)

(** [Game.__init__]: building the shoe shuffles it. *)
Definition Game_init (r : Random) : Game * Random :=
  let (s, r') := Shoe_init 1 r in
  (mkGame Dealer_init User_init s, r').

Definition initial_deal : M unit :=
  c1 <- shoe_deal_card ;; dealer_add_card c1 ;;;
  c2 <- shoe_deal_card ;; user_add_card c2 ;;;
  c3 <- shoe_deal_card ;; dealer_add_card c3 ;;;
  c4 <- shoe_deal_card ;; user_add_card c4.

Definition print_initial_table : M unit :=
  print "Dealer hand:" ;;;
  d <- get_dealer ;; print_initial_dealer_hand d ;;;
  print "User hand:" ;;;
  u <- get_user ;; print_hand_and_value (user_hand u).

(** One pass of the body of the [while] loop of [user_move] per unit of
    fuel. *)
Fixpoint user_move_loop (fuel : nat) : M unit :=
  match fuel with
  | O => fun _ => OutOfFuel
  | S k =>
      u <- get_user ;;
      if can_hit (user_hand u) then
        move <- user_response "Would you like to hit or stand? " ;;
        match move with
        | hit =>
            card <- shoe_deal_card ;;
            print2 "Card is" (str_card card) ;;;
            user_add_card card ;;;
            u' <- get_user ;;
            print2 "Hand value is" (str_int (hand_value (user_hand u'))) ;;;
            user_move_loop k
        | stand => ret tt
        end
      else ret tt
  end.

(** Every pass reads at least one line, so the lines left bound the
    number of passes. *)
Definition user_move : M unit :=
  fun w => user_move_loop (S (length (stdin w))) w.

Fixpoint dealer_move_loop (fuel : nat) : M unit :=
  match fuel with
  | O => fun _ => OutOfFuel
  | S k =>
      d <- get_dealer ;;
      if advised_to_hit d then
        card <- shoe_deal_card ;;
        dealer_add_card card ;;;
        dealer_move_loop k
      else ret tt
  end.

(** Every pass takes a card from the shoe or raises, so the cards left
    bound the number of passes. *)
Definition dealer_move : M unit :=
  fun w => dealer_move_loop (S (length (cards (shoe (game w))))) w.

Definition results_dealer_win (bet : Z) : M unit := print "Dealer wins.".

Definition results_user_win (bet : Z) : M unit :=
  print "User wins." ;;;
  u <- get_user ;; put_user (add_chips (bet * 2) u).

Definition results_tie (bet : Z) : M unit :=
  print "Tie game." ;;;
  u <- get_user ;; put_user (add_chips bet u).

Definition results (bet : Z) : M unit :=
  print "Dealer hand:" ;;;
  d <- get_dealer ;; print_hand_and_value (dealer_hand d) ;;;
  print "User hand:" ;;;
  u <- get_user ;; print_hand_and_value (user_hand u) ;;;
  if is_bust (user_hand u) then results_dealer_win bet
  else if is_bust (dealer_hand d) then results_user_win bet
  else if hand_value (dealer_hand d) >? hand_value (user_hand u) then results_dealer_win bet
  else if hand_value (user_hand u) >? hand_value (dealer_hand d) then results_user_win bet
  else results_tie bet.

Definition return_cards : M unit :=
  g <- get_game ;;
  let (ucards, uh) := reset_hand (user_hand (user g)) in
  let s1 := get_cards_to_garbage_pile ucards (shoe g) in
  let (dcards, dh) := reset_hand (dealer_hand (dealer g)) in
  let s2 := get_cards_to_garbage_pile dcards s1 in
  put_game (mkGame (mkDealer dh) (mkUser uh (chips (user g))) s2).

Definition play_round : M unit :=
  bet <- number_of_chips_to_bet ;;
  u <- get_user ;; put_user (remove_chips bet u) ;;;
  initial_deal ;;;
  print_initial_table ;;;
  user_move ;;;
  u' <- get_user ;;
  (if negb (is_bust (user_hand u')) then dealer_move else ret tt) ;;;
  results bet ;;;
  return_cards.

(** [self.shoe.shuffle_cards()] *)
Definition shoe_shuffle_cards : M unit :=
  fun w =>
    let g := game w in
    let (s, r) := shuffle_cards (shoe g) (random w) in
    Ok tt (mkWorld (mkGame (dealer g) (user g) s) (stdin w) (stdout w) r).

(** [self.shoe.shuffle_required()] *)
Definition shoe_shuffle_required : M bool :=
  g <- get_game ;;
  let (b, s) := shuffle_required (shoe g) in
  put_shoe s ;;; ret b.

(** The loop of [play]: [response] stays [True] for as long as the loop
    runs, so a pass starts at the chips test. *)
Fixpoint play_loop (fuel : nat) : M unit :=
  match fuel with
  | O => fun _ => OutOfFuel
  | S k =>
      u <- get_user ;;
      if negb (has_chips u) then ret tt
      else
        response <- yes_or_no ("You have " ++ str_int (chips u) ++
                               " chips. Would you like to play a round? ")%string ;;
        if response then
          required <- shoe_shuffle_required ;;
          (if required then shoe_shuffle_cards else ret tt) ;;;
          play_round ;;;
          play_loop k
        else ret tt
  end.

(** Every pass reads at least one line. *)
Definition play : M unit :=
  fun w => play_loop (S (length (stdin w))) w.

Definition end_game : M unit :=
  u <- get_user ;;
  print ("You have " ++ str_int (chips u) ++ " chips.")%string ;;;
  print "Thank you for playing!".

(** [main] builds the game, plays, swallows a [GameError] and ends the
    game; any other exception escapes. *)
Definition main (lines : list string) (r : Random) : outcome unit :=
  let (g, r') := Game_init r in
  match play (mkWorld g lines [] r') with
  | Ok _ w => end_game w
  | Raised (GameError _) w => (print "Game ending error occcurred." ;;; end_game) w
  | Raised e w => Raised e w
  | OutOfFuel => OutOfFuel
  end.

(** ** Lists as shared objects

    Above, a list is a value.  That is faithful for the game: no two
    attributes of it ever hold the same list object ([reset_hand] hands
    over the old list and installs a new one, and [+=] copies the
    elements of its right-hand side).  [get_cards_to_garbage_pile],
    however, has a default argument that is one list object shared by
    all calls, and [+=] on a list extends the object in place.  The
    module below models [Shoe] over a store of list objects, with
    references into it, so that sharing can be expressed. *)

Module Shared.

(** List objects are identified by the order of their creation. *)
Record Store := mkStore { objects : gmap nat (list Card); next : nat }.

Definition deref (st : Store) (l : nat) : list Card :=
  default [] (objects st !! l).

Definition update (l : nat) (v : list Card) (st : Store) : Store :=
  mkStore (<[l := v]> (objects st)) (next st).

(** Evaluating a list display such as [[]] creates an object. *)
Definition alloc (v : list Card) (st : Store) : nat * Store :=
  (next st, mkStore (<[next st := v]> (objects st)) (S (next st))).

(** The list built once, when the [def] of [get_cards_to_garbage_pile]
    is executed, and the store as it is right after. *)
Definition default_arg : nat := 0%nat.

Definition initial : Store := mkStore {[ default_arg := [] ]} 1.

Record Shoe := mkShoe {
  cards : nat;
  garbage_pile : nat;
  card_counter : Z;
  total_cards : Z
}.

(** [a += b] on lists: the object [a] is extended in place by the
    elements [b] has at that moment ([a += a] doubles [a]). *)
Definition iadd (a b : nat) (st : Store) : Store :=
  update a (deref st a ++ deref st b) st.

Definition Shoe_init (number_of_decks : Z) (r : Random) (st : Store)
  : Shoe * Random * Store :=
  let (g, st1) := alloc [] st in
  let (c, st2) := alloc [] st1 in
  let number_of_decks := if number_of_decks <? 1 then 1 else number_of_decks in
  let cs := Nat.iter (Z.to_nat number_of_decks) (fun acc => acc ++ Deck_cards) [] in
  let (cs', r') := shuffle cs r in
  (mkShoe c g 0 (Z.of_nat (length cs')), r', update c cs' st2).

Definition deal_card (s : Shoe) (st : Store) : option Card * Shoe * Store :=
  match pop (deref st (cards s)) with
  | None => (None, s, st)
  | Some (c, rest) =>
      (Some c,
       mkShoe (cards s) (garbage_pile s) (card_counter s + 1) (total_cards s),
       update (cards s) rest st)
  end.

(** [discarded_cards] is [None] when the caller passes no argument. *)
Definition argument (discarded_cards : option nat) : nat :=
  match discarded_cards with
  | Some l => l
  | None => default_arg
  end.

Definition get_cards_to_garbage_pile (s : Shoe) (discarded_cards : option nat)
    (st : Store) : Store :=
  iadd (garbage_pile s) (argument discarded_cards) st.

Definition shuffle_cards (s : Shoe) (r : Random) (st : Store)
  : Shoe * Random * Store :=
  let st1 := iadd (cards s) (garbage_pile s) st in
  let (g, st2) := alloc [] st1 in
  let (cs', r') := shuffle (deref st2 (cards s)) r in
  (mkShoe (cards s) g 0 (total_cards s), r', update (cards s) cs' st2).

(** What a client of the class can do: create a shoe, create a list
    of its own, and call the methods of a shoe it created, passing
    any list object that exists (or nothing) as [discarded_cards]. *)
Inductive call :=
  | New (number_of_decks : Z)
  | MakeList (v : list Card)
  | Deal (shoe : nat)
  | Discard (shoe : nat) (discarded_cards : option nat)
  | Shuffle (shoe : nat).

(** The store, the shoes created so far and the entropy source. *)
Record State := mkState { store : Store; shoes : list Shoe; rnd : Random }.

Definition start (r : Random) : State := mkState initial [] r.

(** A call on a shoe that does not exist, or with a list that does
    not exist, is not a call a client can make: [None]. *)
Definition step (c : call) (x : State) : option State :=
  match c with
  | New n =>
      let '(s, r, st) := Shoe_init n (rnd x) (store x) in
      Some (mkState st (shoes x ++ [s]) r)
  | MakeList v =>
      let (_, st) := alloc v (store x) in
      Some (mkState st (shoes x) (rnd x))
  | Deal i =>
      match shoes x !! i with
      | Some s =>
          let '(_, s', st) := deal_card s (store x) in
          Some (mkState st (<[i := s']> (shoes x)) (rnd x))
      | None => None
      end
  | Discard i d =>
      match shoes x !! i with
      | Some s =>
          if bool_decide (argument d < next (store x))%nat then
            Some (mkState (get_cards_to_garbage_pile s d (store x)) (shoes x) (rnd x))
          else None
      | None => None
      end
  | Shuffle i =>
      match shoes x !! i with
      | Some s =>
          let '(s', r, st) := shuffle_cards s (rnd x) (store x) in
          Some (mkState st (<[i := s']> (shoes x)) r)
      | None => None
      end
  end.

Fixpoint run (cs : list call) (x : State) : option State :=
  match cs with
  | [] => Some x
  | c :: rest =>
      match step c x with
      | Some x' => run rest x'
      | None => None
      end
  end.

(** What the calls keep true of a state: a list was created before
    any call, the default argument is empty, and no shoe holds the
    default argument as its pile or its pool. *)
Definition sound (x : State) : Prop :=
  (0 < next (store x))%nat /\
  deref (store x) default_arg = [] /\
  Forall (fun s => garbage_pile s <> default_arg /\ cards s <> default_arg) (shoes x).

End Shared.

(** ** Derived notions used by the statements *)

(** The soft-ace invariant of a hand: the count of soft aces is not
    negative, and a value over 21 leaves no soft ace. *)
Definition soft_ok (h : Hand) : Prop :=
  0 <= number_of_aces h /\ (21 < hand_value h -> number_of_aces h = 0).

(** The hands that come up in play: a card is only ever added to a
    hand worth less than 21 (the first two cards of a round, a hit of
    the user under [can_hit], a hit of the dealer under
    [advised_to_hit]). *)
Inductive dealt_in_play : Hand -> Prop :=
  | in_play_empty : dealt_in_play Hand_init
  | in_play_add (c : Card) (h : Hand) :
      dealt_in_play h -> hand_value h < 21 -> dealt_in_play (Hand_add_card c h).

(** [n] calls of [deal_card] in a row: what each returned, and the
    shoe after them. *)
Fixpoint deal_many (n : nat) (s : Shoe) : list (option Card) * Shoe :=
  match n with
  | O => ([], s)
  | S k =>
      let (c, s1) := deal_card s in
      let (cs, s2) := deal_many k s1 in
      (c :: cs, s2)
  end.

(** The shoe after [n] calls of [deal_card]. *)
Definition deal_cards (n : nat) (s : Shoe) : Shoe := snd (deal_many n s).

(** All the cards of a game, wherever they are. *)
Definition stock (g : Game) : nat :=
  (length (cards (shoe g)) + length (garbage_pile (shoe g))
   + length (hand_cards (user_hand (user g)))
   + length (hand_cards (dealer_hand (dealer g))))%nat.

(** The exceptions a round can raise once the bet is placed. *)
Definition after_bet (e : exn) : Prop :=
  e = GameError "EOFError" \/ e = AttributeError \/ e = IndexError.

(** What the steps of a round between the bet and the payout leave as
    it is: the chips, the size of the shoe, the stock of cards; they
    only take cards from the live pool, only consume input and only add
    output. *)
Record evolves (w w' : World) : Prop := mkEvolves {
  ev_chips : chips (user (game w')) = chips (user (game w));
  ev_total : total_cards (shoe (game w')) = total_cards (shoe (game w));
  ev_stock : stock (game w') = stock (game w);
  ev_cards : (length (cards (shoe (game w'))) <= length (cards (shoe (game w))))%nat;
  ev_stdin : (length (stdin w') <= length (stdin w))%nat;
  ev_stdout : exists out, stdout w' = stdout w ++ out
}.

(** A computation is steady when, from any world, it does not run out
    of fuel, returns in a world the first one evolves into, and raises
    nothing but the exceptions of [after_bet]. *)
Definition steady {A} (m : M A) : Prop :=
  forall w,
    match m w with
    | Ok _ w' => evolves w w'
    | Raised e _ => after_bet e
    | OutOfFuel => False
    end.

(** The announcement that ends a round. *)
Inductive verdict := DealerWins | UserWins | TieGame.

Definition announcement (v : verdict) : string :=
  match v with
  | DealerWins => "Dealer wins."
  | UserWins => "User wins."
  | TieGame => "Tie game."
  end.

(** The chips a verdict hands to the user. *)
Definition payout (v : verdict) (bet : Z) : Z :=
  match v with
  | DealerWins => 0
  | UserWins => bet * 2
  | TieGame => bet
  end.

(** The steps of [play_round] that come before [results], in the same
    order: the bet, the deal and the two turns.  It returns the bet,
    in the world in which [play_round] goes on to call [results]. *)
Definition round_before_results : M Z :=
  bet <- number_of_chips_to_bet ;;
  u <- get_user ;; put_user (remove_chips bet u) ;;;
  initial_deal ;;;
  print_initial_table ;;;
  user_move ;;;
  u' <- get_user ;;
  (if negb (is_bust (user_hand u')) then dealer_move else ret tt) ;;;
  ret bet.

(** The verdict on the hands [u] of the user and [d] of the dealer, by
    the tests of [results] in their order. *)
Definition winner (u d : Hand) : verdict :=
  if is_bust u then DealerWins
  else if is_bust d then UserWins
  else if hand_value d >? hand_value u then DealerWins
  else if hand_value u >? hand_value d then UserWins
  else TieGame.

(** What [results] prints before it announces the verdict. *)
Definition table_shown (g : Game) : list string :=
  [ ("Dealer hand:" ++ nl)%string;
    (Hand_str (dealer_hand (dealer g)) ++ nl)%string;
    (("The hand value is" ++ " " ++ str_int (hand_value (dealer_hand (dealer g)))) ++ nl)%string;
    ("User hand:" ++ nl)%string;
    (Hand_str (user_hand (user g)) ++ nl)%string;
    (("The hand value is" ++ " " ++ str_int (hand_value (user_hand (user g)))) ++ nl)%string ].


(** The points a card adds before any demotion. *)
Definition card_points (c : Card) : Z :=
  if is_ace c then 11 else if is_face c then 10 else rank_int (rank c).

(** The cards of the shoe are all accounted for: live pool, garbage
    pile and the two hands add up to [total_cards]. *)
Definition conserved (g : Game) : Prop :=
  Z.of_nat (stock g) = total_cards (shoe g).

(** The number of cards currently held in the two hands. *)
Definition cards_in_hands (g : Game) : Z :=
  Z.of_nat (length (hand_cards (user_hand (user g)))
            + length (hand_cards (dealer_hand (dealer g)))).


(** A game as [Game()] builds it, with the lines of a short session on
    standard input. *)
Definition opening (lines : list string) : World :=
  let (g, r) := Game_init (mkRandom (fun n => (n * 7 + 3)%nat) 0) in
  mkWorld g lines [] r.

(** ** Notions used by the further properties *)

#[global] Instance Rank_eq_dec : EqDecision Rank.
Proof. solve_decision. Defined.

#[global] Instance Suit_eq_dec : EqDecision Suit.
Proof. solve_decision. Defined.

#[global] Instance Card_eq_dec : EqDecision Card.
Proof. solve_decision. Defined.

(** The points of a card with an ace counted as 1. *)
Definition hard_points (c : Card) : Z :=
  if is_ace c then 1 else card_points c.

Fixpoint hard_total (cs : list Card) : Z :=
  match cs with
  | [] => 0
  | c :: rest => hard_points c + hard_total rest
  end.

Definition count_aces (cs : list Card) : Z :=
  Z.of_nat (length (filter (fun c => is_ace c = true) cs)).

(** The value of a set of cards by the rule of blackjack: every ace
    counts 1, except that one ace counts 11 when that does not take the
    total over 21. *)
Definition best_total (cs : list Card) : Z :=
  let h := hard_total cs in
  if (0 <? count_aces cs) && (h + 10 <=? 21) then h + 10 else h.

(** All the cards of a game, pool first, then pile, then the hands. *)
Definition all_cards (g : Game) : list Card :=
  cards (shoe g) ++ garbage_pile (shoe g)
    ++ hand_cards (user_hand (user g)) ++ hand_cards (dealer_hand (dealer g)).

(** The hands to which a card was only ever added while they were
    worth less than [k]. *)
Inductive dealt_below (k : Z) : Hand -> Prop :=
  | below_empty : dealt_below k Hand_init
  | below_add (c : Card) (h : Hand) :
      dealt_below k h -> hand_value h < k -> dealt_below k (Hand_add_card c h).

(** A game of one deck in good order: its cards are those of the deck,
    the user was hit below 21 only and the dealer below 17 only, and
    the count of cards dealt is the size of the pile and the hands. *)
Record accounted (g : Game) : Prop := mkAccounted {
  acc_deck : all_cards g ≡ₚ Deck_cards;
  acc_user : dealt_below 21 (user_hand (user g));
  acc_dealer : dealt_below 17 (dealer_hand (dealer g));
  acc_count :
    card_counter (shoe g) =
    Z.of_nat (length (garbage_pile (shoe g))
              + length (hand_cards (user_hand (user g)))
              + length (hand_cards (dealer_hand (dealer g))));
  acc_total : total_cards (shoe g) = 52
}.

(** A game in the course of a round: in good order, with no more than
    half of the shoe in the pile. *)
Definition playing (g : Game) : Prop :=
  accounted g /\ (length (garbage_pile (shoe g)) <= 26)%nat.

(** A game between two rounds: in good order, with both hands new. *)
Definition ready (g : Game) : Prop :=
  accounted g /\ user_hand (user g) = Hand_init /\ dealer_hand (dealer g) = Hand_init.

(** The number a sequence of decimal digits denotes, read from the
    left with [acc] the value of the digits read so far. *)
Fixpoint uint_val (acc : Z) (d : Decimal.uint) : Z :=
  match d with
  | Decimal.Nil => acc
  | Decimal.D0 l => uint_val (10 * acc + 0) l
  | Decimal.D1 l => uint_val (10 * acc + 1) l
  | Decimal.D2 l => uint_val (10 * acc + 2) l
  | Decimal.D3 l => uint_val (10 * acc + 3) l
  | Decimal.D4 l => uint_val (10 * acc + 4) l
  | Decimal.D5 l => uint_val (10 * acc + 5) l
  | Decimal.D6 l => uint_val (10 * acc + 6) l
  | Decimal.D7 l => uint_val (10 * acc + 7) l
  | Decimal.D8 l => uint_val (10 * acc + 8) l
  | Decimal.D9 l => uint_val (10 * acc + 9) l
  end.

(** * Properties *)

(** ** Hands *)

Lemma int_numeral (r : Rank) :
  Rank_eqb r ace = false ->
  Rank_eqb r jack || Rank_eqb r queen || Rank_eqb r king = false ->
  exists n, int (Rank_value r) = Some n /\ 2 <= n <= 10.
Proof.
  destruct r; simpl; try discriminate; intros _ _;
    eexists; (split; [vm_compute; reflexivity | lia]).
Qed.

Lemma card_points_bounds (c : Card) : 2 <= card_points c <= 11.
Proof.
  unfold card_points, is_ace, is_face.
  destruct (Rank_eqb (rank c) ace) eqn:Ha; [lia |].
  destruct (Rank_eqb (rank c) jack || Rank_eqb (rank c) queen
            || Rank_eqb (rank c) king) eqn:Hf; [lia |].
  destruct (int_numeral _ Ha Hf) as (n & Hn & Hb).
  unfold rank_int. rewrite Hn. lia.
Qed.

Lemma Hand_add_card_value (c : Card) (h : Hand) :
  let v := hand_value h + card_points c in
  let a := number_of_aces h + (if is_ace c then 1 else 0) in
  hand_value (Hand_add_card c h) = (if (v >? 21) && (a >? 0) then v - 10 else v) /\
  number_of_aces (Hand_add_card c h) = (if (v >? 21) && (a >? 0) then a - 1 else a) /\
  hand_cards (Hand_add_card c h) = hand_cards h ++ [c].
Proof.
  unfold Hand_add_card, update_hand_value, card_points; simpl.
  destruct (is_ace c); [| destruct (is_face c)]; simpl;
    rewrite ?Z.add_0_r;
    match goal with |- context [if ?b then _ else _] => destruct b end;
    simpl; auto.
Qed.

(** A card added to a hand that can still hit keeps the invariant: from
    at most 20, one card reaches at most 31, and one demotion is
    enough. *)
Lemma soft_ok_add_below_21 (c : Card) (h : Hand) :
  soft_ok h -> hand_value h < 21 -> soft_ok (Hand_add_card c h).
Proof.
  intros [Hn Hs] Hv.
  destruct (Hand_add_card_value c h) as (Ev & Ea & _).
  pose proof (card_points_bounds c) as Hp.
  unfold soft_ok. rewrite Ev, Ea. clear Ev Ea.
  destruct (is_ace c);
    destruct (Z.gtb_spec (hand_value h + card_points c) 21);
    simpl;
    match goal with
    | |- context [?a >? 0] => destruct (Z.gtb_spec a 0)
    | _ => idtac
    end; simpl; lia.
Qed.

(** In play, a hand over 21 has no soft ace left. *)
Lemma dealt_in_play_soft_ok (h : Hand) : dealt_in_play h -> soft_ok h.
Proof.
  induction 1 as [| c h _ IH Hv].
  - split; simpl; lia.
  - apply soft_ok_add_below_21; assumption.
Qed.

(** C5: a hand dealt Ace, Ace, 9 in that order, of whatever suits, is
    worth 12 after the second ace (one ace demoted) and 21 at the end,
    with one ace still soft; it is not a bust. *)
Theorem ace_ace_nine_is_21 (s1 s2 s3 : Suit) :
  let h2 := add_cards [mkCard ace s1; mkCard ace s2] Hand_init in
  let h3 := add_cards [mkCard ace s1; mkCard ace s2; mkCard nine s3] Hand_init in
  hand_value h2 = 12 /\ number_of_aces h2 = 1 /\
  hand_value h3 = 21 /\ number_of_aces h3 = 1 /\
  hand_value h3 <> 12 /\ is_bust h3 = false.
Proof.
  vm_compute. repeat split; discriminate.
Qed.

(** C1 at the input where the code departs from it: after Ace, King,
    Ace the hand is worth 22, counts as a bust, and still has a soft
    ace, while demoting that ace would give 12. *)
Theorem bust_with_soft_ace_left :
  let h := add_cards [mkCard ace spades; mkCard king spades; mkCard ace hearts] Hand_init in
  hand_value h = 22 /\ is_bust h = true /\ number_of_aces h = 1 /\
  hand_value h - 10 * number_of_aces h = 12.
Proof.
  vm_compute. repeat split.
Qed.

(** ** Lists: [pop], [swap] and [shuffle] *)

Lemma pop_nil {A} : pop (@nil A) = None.
Proof. reflexivity. Qed.

Lemma pop_snoc {A} (l : list A) (x : A) : pop (l ++ [x]) = Some (x, l).
Proof.
  unfold pop. rewrite rev_unit, rev_involutive. reflexivity.
Qed.

Lemma pop_None {A} (l : list A) : pop l = None -> l = [].
Proof.
  destruct l as [| a l] using rev_ind; [reflexivity |].
  rewrite pop_snoc. discriminate.
Qed.

Lemma pop_Some {A} (l r : list A) (x : A) : pop l = Some (x, r) -> l = r ++ [x].
Proof.
  destruct l as [| a l] using rev_ind.
  - discriminate.
  - rewrite pop_snoc. intros [= -> ->]. reflexivity.
Qed.

(** Putting at [j] the element found at [0], and the other way round. *)
Lemma exchange_head {A} (a y : A) (l : list A) (j : nat) :
  l !! j = Some y -> y :: <[j := a]> l ≡ₚ a :: l.
Proof.
  revert j. induction l as [| b t IH]; intros [| k] H; simpl in *; try discriminate.
  - injection H as ->. apply perm_swap.
  - rewrite perm_swap. rewrite (IH k H). apply perm_swap.
Qed.

Lemma swap_Permutation {A} (i j : nat) (l : list A) : swap i j l ≡ₚ l.
Proof.
  unfold swap.
  destruct (l !! i) as [xi |] eqn:Hi; [| reflexivity].
  destruct (l !! j) as [xj |] eqn:Hj; [| reflexivity].
  revert i j Hi Hj.
  induction l as [| a t IH]; intros [| i] [| j] Hi Hj; simpl in *; try discriminate.
  - injection Hi as ->. injection Hj as ->. reflexivity.
  - injection Hi as ->. apply exchange_head, Hj.
  - injection Hj as ->. apply exchange_head, Hi.
  - constructor. apply IH; assumption.
Qed.

Lemma shuffle_from_Permutation {A} (i : nat) (l : list A) (r : Random) :
  fst (shuffle_from i l r) ≡ₚ l.
Proof.
  revert l r. induction i as [| k IH]; intros l r; simpl; [reflexivity |].
  rewrite IH. apply swap_Permutation.
Qed.

(** [shuffle] rearranges: its result is a permutation of its argument,
    whatever the entropy. *)
Lemma shuffle_Permutation {A} (l : list A) (r : Random) : fst (shuffle l r) ≡ₚ l.
Proof. apply shuffle_from_Permutation. Qed.

Lemma shuffle_length {A} (l : list A) (r : Random) :
  length (fst (shuffle l r)) = length l.
Proof. apply Permutation_length, shuffle_Permutation. Qed.

(** ** Shoe *)

Lemma Shoe_init_spec (number_of_decks : Z) (r : Random) :
  let n := Z.to_nat (if number_of_decks <? 1 then 1 else number_of_decks) in
  let s := fst (Shoe_init number_of_decks r) in
  cards s ≡ₚ Nat.iter n (fun acc => acc ++ Deck_cards) [] /\
  garbage_pile s = [] /\ card_counter s = 0 /\
  total_cards s = Z.of_nat (length (cards s)).
Proof.
  unfold Shoe_init.
  set (cs := Nat.iter _ _ _).
  pose proof (shuffle_Permutation cs r) as HP.
  destruct (shuffle cs r) as [cs' r']. cbn [fst] in *.
  cbn [cards garbage_pile card_counter total_cards]. auto.
Qed.

Lemma Shoe_init_one_deck (r : Random) :
  let s := fst (Shoe_init 1 r) in
  length (cards s) = 52%nat /\ garbage_pile s = [] /\
  card_counter s = 0 /\ total_cards s = 52.
Proof.
  intros s. destruct (Shoe_init_spec 1 r) as (HP & G & C & T). fold s in HP, G, C, T.
  apply Permutation_length in HP.
  change (length (cards s) = 52%nat) in HP.
  rewrite T, HP. auto.
Qed.

Lemma deal_card_empty (s : Shoe) : cards s = [] -> deal_card s = (None, s).
Proof. unfold deal_card. intros ->. reflexivity. Qed.

Lemma deal_card_cases (s : Shoe) :
  (cards s = [] /\ deal_card s = (None, s)) \/
  (exists c rest, cards s = rest ++ [c] /\
     deal_card s = (Some c, mkShoe rest (garbage_pile s) (card_counter s + 1) (total_cards s))).
Proof.
  unfold deal_card. destruct (pop (cards s)) as [[c rest] |] eqn:E.
  - right. exists c, rest. split; [apply pop_Some, E | reflexivity].
  - left. split; [apply pop_None, E | reflexivity].
Qed.

Lemma half_lt_spec (total counter : Z) :
  half_lt total counter = true <-> counter * 2 > total.
Proof.
  unfold half_lt.
  destruct (Qcompare (inject_Z total / 2) (inject_Z counter)) eqn:E.
  - apply Qeq_alt in E. unfold Qeq in E. simpl in E. split; [discriminate | lia].
  - apply Qlt_alt in E. unfold Qlt in E. simpl in E. split; [lia | reflexivity].
  - apply Qgt_alt in E. unfold Qlt in E. simpl in E. split; [discriminate | lia].
Qed.

Lemma deal_many_spec (n : nat) (s : Shoe) :
  (n <= length (cards s))%nat ->
  exists dealt,
    fst (deal_many n s) = map Some dealt /\ length dealt = n /\
    cards s = cards (deal_cards n s) ++ rev dealt /\
    garbage_pile (deal_cards n s) = garbage_pile s /\
    card_counter (deal_cards n s) = card_counter s + Z.of_nat n /\
    total_cards (deal_cards n s) = total_cards s.
Proof.
  unfold deal_cards. revert s. induction n as [| k IH]; intros s Hn.
  - exists []. simpl. rewrite app_nil_r. repeat split; lia.
  - cbn [deal_many].
    destruct (deal_card_cases s) as [[E _] | (c & rest & E & D)].
    + rewrite E in Hn. simpl in Hn. lia.
    + rewrite D. rewrite E, length_app in Hn. simpl in Hn.
      destruct (IH (mkShoe rest (garbage_pile s) (card_counter s + 1) (total_cards s)))
        as (dealt & Hd & Hl & Hc & Hg & Hk & Ht); [simpl; lia |].
      destruct (deal_many k _) as [cs s2]. cbn [fst snd] in *.
      cbn [cards garbage_pile card_counter total_cards] in *.
      exists (c :: dealt). simpl. rewrite Hd, Hl, E, Hc, Hg, Hk, Ht.
      rewrite <- !app_assoc. repeat split. lia.
Qed.

Lemma deal_cards_counter (n : nat) (s : Shoe) :
  (n <= length (cards s))%nat ->
  card_counter (deal_cards n s) = card_counter s + Z.of_nat n /\
  total_cards (deal_cards n s) = total_cards s.
Proof.
  intros Hn. destruct (deal_many_spec n s Hn) as (? & _ & _ & _ & _ & Hk & Ht). auto.
Qed.

(** C6: [shuffle_required] answers true exactly when twice the number
    of cards dealt exceeds [total_cards], and hands back the shoe as it
    was; a one-deck shoe, however shuffled, answers true after 27 cards
    dealt and false after 26. *)
Theorem shuffle_required_spec :
  (forall s : Shoe,
      snd (shuffle_required s) = s /\
      (fst (shuffle_required s) = true <-> card_counter s * 2 > total_cards s)) /\
  (forall r : Random,
      let s := fst (Shoe_init 1 r) in
      fst (shuffle_required (deal_cards 27 s)) = true /\
      fst (shuffle_required (deal_cards 26 s)) = false).
Proof.
  split.
  - intros s. split; [reflexivity | apply half_lt_spec].
  - intros r s.
    destruct (Shoe_init_one_deck r) as (L & _ & C & T). fold s in L, C, T.
    destruct (deal_cards_counter 27 s) as [C27 T27]; [lia |].
    destruct (deal_cards_counter 26 s) as [C26 T26]; [lia |].
    unfold shuffle_required. cbn [fst].
    rewrite C27, T27, C26, T26, C, T. split; reflexivity.
Qed.

(** C7: [n] calls of [deal_card] on a shoe with at least [n] live cards
    all return a card, the last cards of the live pool from the end
    backwards; they leave [n] fewer live cards and raise the count of
    cards dealt by [n], and touch nothing else.  Once the live pool is
    empty, [deal_card] returns [None] and leaves the shoe as it is. *)
Theorem deal_card_counts (s : Shoe) (n : nat) :
  (n <= length (cards s))%nat ->
  let s' := deal_cards n s in
  let s_end := deal_cards (length (cards s)) s in
  (exists dealt, fst (deal_many n s) = map Some dealt /\ length dealt = n /\
                 cards s = cards s' ++ rev dealt) /\
  Z.of_nat (length (cards s')) = Z.of_nat (length (cards s)) - Z.of_nat n /\
  card_counter s' = card_counter s + Z.of_nat n /\
  garbage_pile s' = garbage_pile s /\ total_cards s' = total_cards s /\
  cards s_end = [] /\ deal_card s_end = (None, s_end).
Proof.
  intros Hn s' s_end.
  destruct (deal_many_spec n s Hn) as (dealt & Hd & Hl & Hc & Hg & Hk & Ht).
  fold s' in Hc, Hg, Hk, Ht.
  assert (He : cards s_end = []).
  { destruct (deal_many_spec (length (cards s)) s (le_n _))
      as (all & _ & Hla & Hca & _).
    fold s_end in Hca. apply (f_equal (@length Card)) in Hca.
    rewrite length_app, length_rev, Hla in Hca.
    destruct (cards s_end); [reflexivity | simpl in Hca; lia]. }
  split; [exists dealt; auto |].
  split.
  { apply (f_equal (@length Card)) in Hc.
    rewrite length_app, length_rev, Hl in Hc. lia. }
  repeat split; auto using deal_card_empty.
Qed.

Lemma deal_card_counts_witness :
  let s := mkShoe [mkCard two clubs; mkCard king hearts; mkCard ace spades] [] 0 3 in
  (2 <= length (cards s))%nat /\
  fst (deal_many 2 s) = [Some (mkCard ace spades); Some (mkCard king hearts)] /\
  Z.of_nat (length (cards (deal_cards 2 s))) = 1 /\
  card_counter (deal_cards 2 s) = 2 /\
  deal_card (deal_cards 3 s) = (None, deal_cards 3 s).
Proof.
  intros s.
  assert (H : (2 <= length (cards s))%nat) by (simpl; lia).
  pose proof (deal_card_counts s 2 H) as (_ & Hlen & Hcnt & _ & _ & _ & Hend).
  split; [exact H |].
  split; [reflexivity |].
  split; [exact Hlen |].
  split; [exact Hcnt | exact Hend].
Defined.

(** C8 as stated fails on a shoe from which a card was dealt that is in
    neither hand: a shoe of one deck, one card dealt and kept by the
    caller, then the reshuffle.  The pile is empty and the count is 0,
    but the live pool holds 51 cards, where [total_cards] minus the
    cards in the hands is 52. *)
Lemma reshuffle_with_a_card_elsewhere :
  let r := mkRandom (fun n => n) 0 in
  let g := mkGame Dealer_init User_init (deal_cards 1 (fst (Shoe_init 1 r))) in
  let s' := fst (shuffle_cards (shoe g) r) in
  garbage_pile s' = [] /\ card_counter s' = 0 /\
  total_cards (shoe g) = 52 /\ cards_in_hands g = 0 /\
  Z.of_nat (length (cards s')) = 51 /\
  Z.of_nat (length (cards s')) <> total_cards (shoe g) - cards_in_hands g.
Proof.
  vm_compute. repeat split; discriminate.
Qed.

(** C8 (amended): [shuffle_cards], on any shoe, puts the garbage pile
    back into the live pool (the new pool is a rearrangement of the old
    pool followed by the pile), empties the pile and resets the count
    of cards dealt.  The live pool then has the size of the old pool
    plus that of the pile; this is [total_cards] minus the cards in the
    two hands exactly when the cards of the shoe were all accounted for
    before the reshuffle, pool, pile and hands adding up to
    [total_cards]. *)
Theorem shuffle_cards_spec (g : Game) (r : Random) :
  let s' := fst (shuffle_cards (shoe g) r) in
  cards s' ≡ₚ cards (shoe g) ++ garbage_pile (shoe g) /\
  garbage_pile s' = [] /\
  card_counter s' = 0 /\
  total_cards s' = total_cards (shoe g) /\
  length (cards s') = (length (cards (shoe g)) + length (garbage_pile (shoe g)))%nat /\
  (Z.of_nat (length (cards s')) = total_cards (shoe g) - cards_in_hands g <->
   conserved g).
Proof.
  unfold shuffle_cards.
  pose proof (shuffle_Permutation (cards (shoe g) ++ garbage_pile (shoe g)) r) as HP.
  destruct (shuffle _ r) as [cs' r']. cbn [fst] in *.
  cbn [cards garbage_pile card_counter total_cards].
  pose proof (Permutation_length HP) as HL. rewrite length_app in HL.
  repeat split; auto.
  - unfold conserved, stock, cards_in_hands. lia.
  - unfold conserved, stock, cards_in_hands. lia.
Qed.

(** ** The monad *)

Lemma bind_Ok {A B} (m : M A) (f : A -> M B) (w w' : World) (b : B) :
  bind m f w = Ok b w' -> exists a w1, m w = Ok a w1 /\ f a w1 = Ok b w'.
Proof.
  unfold bind. destruct (m w) as [a w1 | e w1 |]; try discriminate. eauto.
Qed.

Lemma bind_Raised {A B} (m : M A) (f : A -> M B) (w w' : World) (e : exn) :
  bind m f w = Raised e w' ->
  m w = Raised e w' \/ exists a w1, m w = Ok a w1 /\ f a w1 = Raised e w'.
Proof.
  unfold bind. destruct (m w) as [a w1 | e1 w1 |]; try discriminate; intros H.
  - right. exists a, w1. split; [reflexivity | exact H].
  - left. injection H as -> ->. reflexivity.
Qed.

Lemma evolves_refl (w : World) : evolves w w.
Proof.
  constructor; auto. exists []. symmetry. apply app_nil_r.
Qed.

Lemma evolves_trans (w1 w2 w3 : World) :
  evolves w1 w2 -> evolves w2 w3 -> evolves w1 w3.
Proof.
  intros [c1 t1 s1 k1 i1 [o1 E1]] [c2 t2 s2 k2 i2 [o2 E2]].
  constructor; try congruence; try lia.
  exists (o1 ++ o2). rewrite E2, E1. symmetry. apply app_assoc.
Qed.

Lemma steady_ret {A} (a : A) : steady (ret a).
Proof. intros w. apply evolves_refl. Qed.

Lemma steady_bind {A B} (m : M A) (f : A -> M B) :
  steady m -> (forall a, steady (f a)) -> steady (bind m f).
Proof.
  intros Hm Hf w. unfold bind. specialize (Hm w).
  destruct (m w) as [a w1 | e w1 |]; auto.
  specialize (Hf a w1). destruct (f a w1) as [b w2 | e w2 |]; auto.
  eapply evolves_trans; eassumption.
Qed.

Lemma steady_get_game : steady get_game.
Proof. intros w. apply evolves_refl. Qed.

Lemma steady_get_user : steady get_user.
Proof. intros w. apply evolves_refl. Qed.

Lemma steady_get_dealer : steady get_dealer.
Proof. intros w. apply evolves_refl. Qed.

Lemma steady_write (text : string) : steady (write text).
Proof.
  intros w. constructor; auto. exists [text]. reflexivity.
Qed.

Lemma steady_print (text : string) : steady (print text).
Proof. apply steady_write. Qed.

Lemma steady_print2 (a b : string) : steady (print2 a b).
Proof. apply steady_print. Qed.

Lemma steady_print_hand_and_value (h : Hand) : steady (print_hand_and_value h).
Proof.
  apply steady_bind; [apply steady_print | intros _; apply steady_print2].
Qed.

Lemma steady_print_initial_dealer_hand (d : Dealer) :
  steady (print_initial_dealer_hand d).
Proof.
  unfold print_initial_dealer_hand. destruct (hand_cards (dealer_hand d)).
  - intros w. right. right. reflexivity.
  - apply steady_bind; [apply steady_print | intros _; apply steady_print].
Qed.

Create HintDb steady.
#[local] Hint Resolve steady_ret steady_bind steady_get_game steady_get_user
  steady_get_dealer steady_write steady_print steady_print2
  steady_print_hand_and_value steady_print_initial_dealer_hand : steady.

Lemma steady_print_initial_table : steady print_initial_table.
Proof. unfold print_initial_table. auto 10 with steady. Qed.

(** ** Reading *)

Lemma ask_spec {A} (prompt complaint : string) (accept : string -> answer A)
    (lines : list string) :
  match ask prompt complaint accept lines with
  | (Answer a, rest, _) =>
      (length rest < length lines)%nat /\ exists line, accept line = Accepted a
  | (EndOfInput, rest, _) => rest = []
  | (Raises e, rest, _) =>
      (length rest < length lines)%nat /\ exists line, accept line = Failed e
  end.
Proof.
  induction lines as [| line rest IH]; simpl; [reflexivity |].
  destruct (accept line) as [a | | e] eqn:E.
  - split; [lia | eauto].
  - destruct (ask prompt complaint accept rest) as [[[a | | e] rest'] out].
    + destruct IH as [Hl He]. split; [lia | exact He].
    + exact IH.
    + destruct IH as [Hl He]. split; [lia | exact He].
  - split; [lia | eauto].
Qed.

Lemma asking_spec {A} (prompt complaint : string) (accept : string -> answer A)
    (w : World) :
  match asking prompt complaint accept w with
  | Ok a w' =>
      game w' = game w /\ (length (stdin w') < length (stdin w))%nat /\
      (exists out, stdout w' = stdout w ++ out) /\
      exists line, accept line = Accepted a
  | Raised e w' =>
      game w' = game w /\
      ((e = GameError "EOFError" /\ stdin w' = []) \/
       (exists line, accept line = Failed e))
  | OutOfFuel => False
  end.
Proof.
  unfold asking. pose proof (ask_spec prompt complaint accept (stdin w)) as H.
  destruct (ask prompt complaint accept (stdin w)) as [[[a | | e] rest] out]; cbn.
  - destruct H as [Hl He]. eauto.
  - auto.
  - destruct H as [Hl He]. auto.
Qed.

(** The two tests of the game that compare the answer with fixed words
    do not raise. *)
Lemma answer_of_Failed {A} (o : option A) (e : exn) : answer_of o <> Failed e.
Proof. destruct o; discriminate. Qed.

Lemma answer_of_Accepted {A} (o : option A) (a : A) :
  answer_of o = Accepted a -> o = Some a.
Proof. destruct o; intros [=]; congruence. Qed.

Lemma asking_words_spec {A} (prompt complaint : string) (accept : string -> option A)
    (w : World) :
  match asking prompt complaint (fun line => answer_of (accept line)) w with
  | Ok a w' =>
      game w' = game w /\ (length (stdin w') < length (stdin w))%nat /\
      (exists out, stdout w' = stdout w ++ out) /\
      exists line, accept line = Some a
  | Raised e w' => e = GameError "EOFError" /\ game w' = game w /\ stdin w' = []
  | OutOfFuel => False
  end.
Proof.
  pose proof (asking_spec prompt complaint (fun line => answer_of (accept line)) w) as H.
  destruct (asking _ _ _ w) as [a w' | e w' |]; auto.
  - destruct H as (Hg & Hl & Ho & line & Ha).
    apply answer_of_Accepted in Ha. eauto.
  - destruct H as (Hg & [[-> Hi] | [line Ha]]); [auto |].
    exfalso. exact (answer_of_Failed _ _ Ha).
Qed.

Lemma steady_asking {A} (prompt complaint : string) (accept : string -> option A) :
  steady (asking prompt complaint (fun line => answer_of (accept line))).
Proof.
  intros w. pose proof (asking_words_spec prompt complaint accept w) as H.
  destruct (asking _ _ _ w) as [a w' | e w' |]; auto.
  - destruct H as (Hg & Hl & Ho & _).
    constructor; rewrite ?Hg; auto; lia.
  - left. apply H.
Qed.

(** The loop goes through the lines that the test refuses. *)
Lemma ask_first_acceptable {A} (prompt complaint : string) (accept : string -> answer A)
    (bad : list string) (tail : list string) :
  Forall (fun line => accept line = Refused) bad ->
  ask prompt complaint accept (bad ++ tail) =
  (let '(a, rest, out) := ask prompt complaint accept tail in
   (a, rest, flat_map (fun _ => [prompt; (complaint ++ nl)%string]) bad ++ out)).
Proof.
  induction 1 as [| line bad Hl _ IH]; cbn [app flat_map ask].
  - destruct (ask prompt complaint accept tail) as [[a rest] out]. reflexivity.
  - rewrite Hl, IH.
    destruct (ask prompt complaint accept tail) as [[a rest] out]. reflexivity.
Qed.

(** The first acceptable line is the answer, for a test that does not
    raise. *)
Lemma asking_words_first {A} (prompt complaint : string) (accept : string -> option A)
    (w : World) (bad : list string) (good : string) (a : A) (rest : list string) :
  Forall (fun line => accept line = None) bad ->
  stdin w = bad ++ good :: rest -> accept good = Some a ->
  asking prompt complaint (fun line => answer_of (accept line)) w =
  Ok a (mkWorld (game w) rest
          (stdout w ++ flat_map (fun _ => [prompt; (complaint ++ nl)%string]) bad ++ [prompt])
          (random w)).
Proof.
  intros Hb E Ha. unfold asking.
  rewrite E, (ask_first_acceptable _ _ _ bad (good :: rest)).
  - cbn [ask]. rewrite Ha. reflexivity.
  - eapply Forall_impl; [exact Hb |]. cbn. intros line ->. reflexivity.
Qed.

(** ** Dealing a card into a hand *)

Lemma Hand_add_card_cards (c : Card) (h : Hand) :
  hand_cards (Hand_add_card c h) = hand_cards h ++ [c].
Proof. apply Hand_add_card_value. Qed.

Ltac run_monad :=
  cbv beta iota delta
    [bind ret raise shoe_deal_card user_add_card dealer_add_card
     hand_add get_user get_dealer get_game put_user put_dealer put_shoe
     put_game print2 print write];
  cbn [game stdin stdout random dealer user shoe user_hand chips dealer_hand].

Ltac dealt_evolves E :=
  constructor;
  cbn [game stdin stdout random dealer user shoe user_hand chips dealer_hand
       cards garbage_pile card_counter total_cards];
  unfold stock;
  cbn [game stdin stdout random dealer user shoe user_hand chips dealer_hand
       cards garbage_pile card_counter total_cards];
  rewrite ?Hand_add_card_cards, ?E, ?length_app; simpl length;
  try lia; auto.

(** A card dealt to the user, then the rest [k] of the computation:
    either the live pool is empty and the whole raises
    [AttributeError], or the rest runs from a world that differs by the
    one card that went from the pool to the hand. *)
Lemma deal_user_step {A} (k : M A) (w : World) :
  (cards (shoe (game w)) = [] /\
   exists w', (c <- shoe_deal_card ;; user_add_card c ;;; k) w = Raised AttributeError w') \/
  (exists w1,
     evolves w w1 /\ stdin w1 = stdin w /\ stdout w1 = stdout w /\
     dealer (game w1) = dealer (game w) /\
     (S (length (cards (shoe (game w1)))) = length (cards (shoe (game w))))%nat /\
     (c <- shoe_deal_card ;; user_add_card c ;;; k) w = k w1).
Proof.
  run_monad.
  destruct (deal_card_cases (shoe (game w))) as [[E D] | (c & rest & E & D)];
    rewrite D; run_monad.
  - left. eauto.
  - right. eexists. repeat apply conj. 6: reflexivity.
    + dealt_evolves E. exists []. symmetry. apply app_nil_r.
    + reflexivity.
    + reflexivity.
    + reflexivity.
    + cbn. rewrite E, length_app. simpl. lia.
Qed.

Lemma deal_dealer_step {A} (k : M A) (w : World) :
  (cards (shoe (game w)) = [] /\
   exists w', (c <- shoe_deal_card ;; dealer_add_card c ;;; k) w = Raised AttributeError w') \/
  (exists w1,
     evolves w w1 /\ stdin w1 = stdin w /\ stdout w1 = stdout w /\
     user (game w1) = user (game w) /\
     (S (length (cards (shoe (game w1)))) = length (cards (shoe (game w))))%nat /\
     (c <- shoe_deal_card ;; dealer_add_card c ;;; k) w = k w1).
Proof.
  run_monad.
  destruct (deal_card_cases (shoe (game w))) as [[E D] | (c & rest & E & D)];
    rewrite D; run_monad.
  - left. eauto.
  - right. eexists. repeat apply conj. 6: reflexivity.
    + dealt_evolves E. exists []. symmetry. apply app_nil_r.
    + reflexivity.
    + reflexivity.
    + reflexivity.
    + cbn. rewrite E, length_app. simpl. lia.
Qed.

(** The same for a hit of the user, where the card is announced between
    the deal and the addition. *)
Lemma hit_step {A} (k : M A) (w : World) :
  (cards (shoe (game w)) = [] /\
   exists w', (card <- shoe_deal_card ;;
               print2 "Card is" (str_card card) ;;;
               user_add_card card ;;; k) w = Raised AttributeError w') \/
  (exists w1,
     evolves w w1 /\ stdin w1 = stdin w /\
     dealer (game w1) = dealer (game w) /\
     (S (length (cards (shoe (game w1)))) = length (cards (shoe (game w))))%nat /\
     (card <- shoe_deal_card ;;
      print2 "Card is" (str_card card) ;;;
      user_add_card card ;;; k) w = k w1).
Proof.
  run_monad.
  destruct (deal_card_cases (shoe (game w))) as [[E D] | (c & rest & E & D)];
    rewrite D; run_monad.
  - left. eauto.
  - right. eexists. repeat apply conj. 5: reflexivity.
    + dealt_evolves E. eexists. reflexivity.
    + reflexivity.
    + reflexivity.
    + cbn. rewrite E, length_app. simpl. lia.
Qed.

Lemma steady_initial_deal : steady initial_deal.
Proof.
  intros w. unfold initial_deal.
  destruct (deal_dealer_step
              (c2 <- shoe_deal_card ;; user_add_card c2 ;;;
               c3 <- shoe_deal_card ;; dealer_add_card c3 ;;;
               c4 <- shoe_deal_card ;; user_add_card c4) w)
    as [[_ [w' ->]] | (w1 & E1 & _ & _ & _ & _ & ->)]; [right; left; reflexivity |].
  destruct (deal_user_step
              (c3 <- shoe_deal_card ;; dealer_add_card c3 ;;;
               c4 <- shoe_deal_card ;; user_add_card c4) w1)
    as [[_ [w' ->]] | (w2 & E2 & _ & _ & _ & _ & ->)]; [right; left; reflexivity |].
  destruct (deal_dealer_step (c4 <- shoe_deal_card ;; user_add_card c4) w2)
    as [[_ [w' ->]] | (w3 & E3 & _ & _ & _ & _ & ->)]; [right; left; reflexivity |].
  pose proof (deal_user_step (ret tt) w3) as H.
  assert (Hk : (c4 <- shoe_deal_card ;; user_add_card c4) w3
               = (c4 <- shoe_deal_card ;; user_add_card c4 ;;; ret tt) w3).
  { run_monad. destruct (deal_card (shoe (game w3))) as [[c |] s]; reflexivity. }
  rewrite Hk.
  destruct H as [[_ [w' ->]] | (w4 & E4 & _ & _ & _ & _ & ->)]; [right; left; reflexivity |].
  cbn. eauto using evolves_trans.
Qed.

Lemma print_step {A} (text : string) (k : M A) (w : World) :
  exists w1, (print text ;;; k) w = k w1 /\ evolves w w1 /\
             stdin w1 = stdin w /\ game w1 = game w.
Proof.
  eexists. repeat apply conj. 1: reflexivity.
  - apply (steady_print text w).
  - reflexivity.
  - reflexivity.
Qed.

(** ** The two turns *)

Lemma dealer_move_loop_spec (fuel : nat) (w : World) :
  (length (cards (shoe (game w))) < fuel)%nat ->
  match dealer_move_loop fuel w with
  | Ok _ w' => evolves w w' /\ user (game w') = user (game w) /\
               stdout w' = stdout w /\ advised_to_hit (dealer (game w')) = false
  | Raised e _ => after_bet e
  | OutOfFuel => False
  end.
Proof.
  revert w. induction fuel as [| k IH]; intros w Hf; [lia |].
  change (dealer_move_loop (S k) w)
    with ((if advised_to_hit (dealer (game w))
           then (card <- shoe_deal_card ;; dealer_add_card card ;;; dealer_move_loop k)
           else ret tt) w).
  destruct (advised_to_hit (dealer (game w))) eqn:Ha.
  - destruct (deal_dealer_step (dealer_move_loop k) w)
      as [[_ [w' ->]] | (w1 & E1 & _ & Ho & Hu & Hl & ->)]; [right; left; reflexivity |].
    specialize (IH w1 ltac:(lia)).
    destruct (dealer_move_loop k w1) as [[] w' | e w' |]; auto.
    destruct IH as (E2 & Hu2 & Ho2 & Ha2).
    split; [eapply evolves_trans; eassumption |].
    repeat apply conj; congruence.
  - cbn. repeat apply conj; auto using evolves_refl.
Qed.

Lemma dealer_move_spec (w : World) :
  match dealer_move w with
  | Ok _ w' => evolves w w' /\ user (game w') = user (game w) /\
               stdout w' = stdout w /\ advised_to_hit (dealer (game w')) = false
  | Raised e _ => after_bet e
  | OutOfFuel => False
  end.
Proof. apply dealer_move_loop_spec. lia. Qed.

Lemma user_move_loop_spec (fuel : nat) (w : World) :
  (length (stdin w) < fuel)%nat ->
  match user_move_loop fuel w with
  | Ok _ w' => evolves w w'
  | Raised e _ => after_bet e
  | OutOfFuel => False
  end.
Proof.
  revert w. induction fuel as [| k IH]; intros w Hf; [lia |].
  change (user_move_loop (S k) w)
    with ((if can_hit (user_hand (user (game w)))
          then (move <- user_response "Would you like to hit or stand? " ;;
                match move with
                | hit =>
                    card <- shoe_deal_card ;;
                    print2 "Card is" (str_card card) ;;;
                    user_add_card card ;;;
                    u' <- get_user ;;
                    print2 "Hand value is" (str_int (hand_value (user_hand u'))) ;;;
                    user_move_loop k
                | stand => ret tt
                end)
          else ret tt) w).
  destruct (can_hit (user_hand (user (game w)))); [| apply evolves_refl].
  unfold bind at 1, user_response.
  pose proof (asking_words_spec "Would you like to hit or stand? " "Invalid input." accept_move w) as Hr.
  pose proof (steady_asking "Would you like to hit or stand? " "Invalid input." accept_move w) as Hs.
  destruct (asking _ _ _ w) as [move wa | e wa |]; auto.
  destruct Hr as (_ & Hl & _).
  destruct move; [exact Hs |].
  match goal with
  | |- context [bind shoe_deal_card ?f wa] =>
      match f with
      | (fun card => bind _ (fun _ => bind _ (fun _ => ?K))) =>
          destruct (hit_step K wa)
            as [[_ [w' ->]] | (w1 & E1 & Hi & _ & _ & ->)]; [right; left; reflexivity |]
      end
  end.
  change ((u' <- get_user ;;
           print2 "Hand value is" (str_int (hand_value (user_hand u'))) ;;;
           user_move_loop k) w1)
    with ((print ("Hand value is" ++ " " ++
                  str_int (hand_value (user_hand (user (game w1)))))%string ;;;
           user_move_loop k) w1).
  destruct (print_step ("Hand value is" ++ " " ++
                        str_int (hand_value (user_hand (user (game w1)))))%string
              (user_move_loop k) w1) as (w2 & -> & E2 & Hi2 & _).
  specialize (IH w2 ltac:(rewrite Hi2, Hi; lia)).
  destruct (user_move_loop k w2) as [[] w' | e w' |]; auto.
  eauto using evolves_trans.
Qed.

Lemma steady_user_move : steady user_move.
Proof. intros w. apply user_move_loop_spec. lia. Qed.

Lemma steady_dealer_move : steady dealer_move.
Proof.
  intros w. pose proof (dealer_move_spec w) as H.
  destruct (dealer_move w); auto. apply H.
Qed.

(** ** The bet, the verdict and the cleanup *)

Lemma accept_bet_range (min_bet max_bet n : Z) (line : string) :
  accept_bet min_bet max_bet line = Accepted n -> min_bet <= n <= max_bet.
Proof.
  unfold accept_bet. destruct (isdigit (strip line)); [| discriminate].
  destruct (int (strip line)) as [m |]; [| discriminate].
  destruct (Z.leb_spec min_bet m); [| discriminate].
  destruct (Z.leb_spec m max_bet); [| discriminate].
  simpl. intros [= <-]. lia.
Qed.

(** The test of a bet raises nothing but [ValueError], and only on a
    text of digit characters that [int] does not read. *)
Lemma accept_bet_Failed (min_bet max_bet : Z) (line : string) (e : exn) :
  accept_bet min_bet max_bet line = Failed e ->
  e = ValueError /\ isdigit (strip line) = true /\ int (strip line) = None.
Proof.
  unfold accept_bet. destruct (isdigit (strip line)); [| discriminate].
  destruct (int (strip line)) as [m |].
  - destruct (_ && _); discriminate.
  - intros [= <-]. auto.
Qed.

Lemma number_of_chips_to_bet_spec (w : World) :
  let C := chips (user (game w)) in
  match number_of_chips_to_bet w with
  | Ok B w' =>
      1 <= B <= C /\ game w' = game w /\
      (length (stdin w') < length (stdin w))%nat /\
      exists out, stdout w' = stdout w ++ out
  | Raised e w' =>
      (C < 1 /\ e = GameError "Min/Max bet error" /\ w' = w) \/
      (1 <= C /\ game w' = game w /\
       ((e = GameError "EOFError" /\ stdin w' = []) \/
        (e = ValueError /\
         exists line, isdigit (strip line) = true /\ int (strip line) = None)))
  | OutOfFuel => False
  end.
Proof.
  intros C. unfold number_of_chips_to_bet.
  cbv beta iota zeta delta [bind get_user get_game ret].
  fold C. destruct (Z.gtb_spec 1 C) as [Hc | Hc].
  - left. unfold raise. auto.
  - match goal with |- context [asking ?p ?c ?a w] =>
      pose proof (asking_spec p c a w) as H; destruct (asking p c a w) as [B w' | e w' |]
    end; auto.
    + destruct H as (Hg & Hl & Ho & line & Ha).
      apply accept_bet_range in Ha. auto.
    + right. split; [lia |]. destruct H as (Hg & [He | [line Ha]]); [auto |].
      apply accept_bet_Failed in Ha. destruct Ha as (-> & Ha). eauto.
Qed.

Lemma results_run (bet : Z) (w : World) :
  let u := user_hand (user (game w)) in
  let d := dealer_hand (dealer (game w)) in
  exists w' v,
    results bet w = Ok tt w' /\
    stdout w' = stdout w ++ table_shown (game w) ++ [(announcement v ++ nl)%string] /\
    chips (user (game w')) = chips (user (game w)) + payout v bet /\
    user_hand (user (game w')) = u /\ dealer (game w') = dealer (game w) /\
    shoe (game w') = shoe (game w) /\ stdin w' = stdin w /\ random w' = random w /\
    v = (if is_bust u then DealerWins
         else if is_bust d then UserWins
         else if hand_value d >? hand_value u then DealerWins
         else if hand_value u >? hand_value d then UserWins
         else TieGame).
Proof.
  intros u d. unfold results.
  cbv beta iota zeta delta
    [bind get_user get_dealer get_game ret print_hand_and_value print2 print write].
  cbn [game stdin stdout random]. fold u d.
  unfold table_shown. fold u d.
  destruct (is_bust u);
    [| destruct (is_bust d);
       [| destruct (hand_value d >? hand_value u);
          [| destruct (hand_value u >? hand_value d)]]];
    eexists; eexists;
    (split; [reflexivity |]);
    unfold add_chips;
    cbn [game stdin stdout random user dealer shoe chips user_hand];
    rewrite <- ?app_assoc; cbn [app];
    repeat apply conj; try reflexivity;
    cbn [payout announcement]; try reflexivity; lia.
Qed.

Lemma return_cards_run (w : World) :
  exists w',
    return_cards w = Ok tt w' /\
    chips (user (game w')) = chips (user (game w)) /\
    stdin w' = stdin w /\ stdout w' = stdout w /\ random w' = random w /\
    total_cards (shoe (game w')) = total_cards (shoe (game w)) /\
    cards (shoe (game w')) = cards (shoe (game w)) /\
    card_counter (shoe (game w')) = card_counter (shoe (game w)) /\
    garbage_pile (shoe (game w')) =
      garbage_pile (shoe (game w)) ++ hand_cards (user_hand (user (game w)))
        ++ hand_cards (dealer_hand (dealer (game w))) /\
    user_hand (user (game w')) = Hand_init /\
    dealer_hand (dealer (game w')) = Hand_init /\
    stock (game w') = stock (game w).
Proof.
  eexists. split.
  { unfold return_cards.
    cbv beta iota zeta delta [bind get_game put_game reset_hand]. reflexivity. }
  cbn. rewrite <- app_assoc. repeat apply conj; try reflexivity.
  unfold stock. cbn. rewrite !length_app. lia.
Qed.

(** ** A round *)

(** One more steady step in the run of a round: name the world it
    reaches and what is known of it, or close the case where it
    raises. *)
Ltac steady_step m lem w' E :=
  match goal with
  | |- context [m ?x] =>
      pose proof (lem x) as E;
      destruct (m x) as [[] w' | ? w' |];
      [ | right; split; [lia | left; exact E] | contradiction ]
  end.

(** [play_round] is its steps up to the turn of the dealer, then
    [results] and [return_cards]. *)
Lemma play_round_split (w : World) :
  play_round w = (bet <- round_before_results ;; results bet ;;; return_cards) w.
Proof.
  unfold play_round, round_before_results, bind.
  destruct (number_of_chips_to_bet w) as [B w1 | |]; [| reflexivity ..].
  destruct (get_user w1) as [u w2 | |]; [| reflexivity ..].
  destruct (put_user (remove_chips B u) w2) as [[] w3 | |]; [| reflexivity ..].
  destruct (initial_deal w3) as [[] w4 | |]; [| reflexivity ..].
  destruct (print_initial_table w4) as [[] w5 | |]; [| reflexivity ..].
  destruct (user_move w5) as [[] w6 | |]; [| reflexivity ..].
  destruct (get_user w6) as [u' w7 | |]; [| reflexivity ..].
  destruct ((if negb (is_bust (user_hand u')) then dealer_move else ret tt) w7)
    as [[] w8 | |]; reflexivity.
Qed.

Lemma round_before_results_spec (w : World) :
  let C := chips (user (game w)) in
  match round_before_results w with
  | Ok B wr =>
      exists w1,
        number_of_chips_to_bet w = Ok B w1 /\ 1 <= B <= C /\
        chips (user (game wr)) = C - B /\
        (exists out, stdout wr = stdout w ++ out) /\
        (length (stdin wr) < length (stdin w))%nat /\
        total_cards (shoe (game wr)) = total_cards (shoe (game w)) /\
        stock (game wr) = stock (game w)
  | Raised e w' =>
      (C < 1 /\ e = GameError "Min/Max bet error" /\ w' = w) \/
      (1 <= C /\ (after_bet e \/ e = ValueError))
  | OutOfFuel => False
  end.
Proof.
  intros C. unfold round_before_results. unfold bind at 1.
  pose proof (number_of_chips_to_bet_spec w) as Hb. fold C in Hb.
  destruct (number_of_chips_to_bet w) as [B w1 | e w1 |] eqn:Ebet; [| | contradiction].
  2: { destruct Hb as [Hb | (Hc & _ & [[-> _] | [-> _]])];
         [left; exact Hb | right; split; [lia | left; left; reflexivity]
         | right; split; [lia | right; reflexivity]]. }
  destruct Hb as (HB & Hg1 & Hl1 & out1 & Ho1).
  cbv beta iota delta [bind get_user get_game ret put_user put_game].
  cbn [game stdin stdout random dealer user shoe].
  set (w2 := mkWorld _ (stdin w1) (stdout w1) (random w1)).
  assert (H2 : chips (user (game w2)) = C - B /\
               total_cards (shoe (game w2)) = total_cards (shoe (game w)) /\
               stock (game w2) = stock (game w) /\
               stdin w2 = stdin w1 /\ stdout w2 = stdout w1).
  { subst w2. unfold stock. cbn. rewrite Hg1. auto. }
  destruct H2 as (Hc2 & Ht2 & Hs2 & Hi2 & Ho2).
  clearbody w2.
  steady_step initial_deal steady_initial_deal w3 E3.
  steady_step print_initial_table steady_print_initial_table w4 E4.
  steady_step user_move steady_user_move w5 E5.
  assert (E6 : match (if negb (is_bust (user_hand (user (game w5))))
                      then dealer_move else (fun w0 => Ok tt w0)) w5 with
               | Ok _ w' => evolves w5 w'
               | Raised e _ => after_bet e
               | OutOfFuel => False
               end).
  { destruct (negb _); [apply steady_dealer_move | apply evolves_refl]. }
  destruct ((if negb (is_bust (user_hand (user (game w5))))
             then dealer_move else (fun w0 => Ok tt w0)) w5) as [[] w6 | e w6 |];
    [ | right; split; [lia | left; exact E6] | contradiction ].
  assert (E26 : evolves w2 w6) by eauto using evolves_trans.
  destruct E26 as [Hc6 Ht6 Hs6 _ Hi6 [out6 Ho6]].
  exists w1. repeat apply conj; auto; try lia; try congruence.
  - exists (out1 ++ out6). rewrite Ho6, Ho2, Ho1. rewrite <- !app_assoc. reflexivity.
  - rewrite Hi2 in Hi6. lia.
Qed.

(** A round that returns: the bet [B], the world [wr] in which
    [results] ran and the verdict [v] it gave on the hands of [wr]. *)
Lemma play_round_Ok (w w' : World) :
  play_round w = Ok tt w' ->
  let C := chips (user (game w)) in
  exists B w1 wr v,
    number_of_chips_to_bet w = Ok B w1 /\ 1 <= B <= C /\
    round_before_results w = Ok B wr /\
    chips (user (game wr)) = C - B /\
    v = winner (user_hand (user (game wr))) (dealer_hand (dealer (game wr))) /\
    stdout w' = stdout wr ++ table_shown (game wr) ++ [(announcement v ++ nl)%string] /\
    garbage_pile (shoe (game w')) =
      garbage_pile (shoe (game wr)) ++ hand_cards (user_hand (user (game wr)))
        ++ hand_cards (dealer_hand (dealer (game wr))) /\
    chips (user (game w')) = C - B + payout v B /\
    (exists out, stdout wr = stdout w ++ out) /\
    (length (stdin w') < length (stdin w))%nat /\
    total_cards (shoe (game w')) = total_cards (shoe (game w)) /\
    stock (game w') = stock (game w) /\
    user_hand (user (game w')) = Hand_init /\
    dealer_hand (dealer (game w')) = Hand_init.
Proof.
  intros H C. rewrite play_round_split in H. unfold bind at 1 in H.
  pose proof (round_before_results_spec w) as S. fold C in S.
  destruct (round_before_results w) as [B wr | e wr |]; [| discriminate ..].
  destruct S as (w1 & Hb & HB & Hcr & Hor & Hir & Htr & Hsr).
  destruct (results_run B wr)
    as (w7 & v & E7 & Ho7 & Hc7 & Hu7 & Hd7 & Hsh7 & Hi7 & _ & Hv).
  unfold bind in H. rewrite E7 in H.
  assert (Hs7 : stock (game w7) = stock (game wr)).
  { unfold stock. rewrite Hu7, Hd7, Hsh7. reflexivity. }
  destruct (return_cards_run w7)
    as (w8 & E8 & Hc8 & Hi8 & Ho8 & _ & Ht8 & _ & _ & Hg8 & Hu8 & Hd8 & Hs8).
  rewrite E8 in H. injection H as <-.
  exists B, w1, wr, v. repeat apply conj; auto; try lia; try congruence.
Qed.

Lemma play_round_spec (w : World) :
  let C := chips (user (game w)) in
  match play_round w with
  | Ok _ w' =>
      exists B w1 v,
        number_of_chips_to_bet w = Ok B w1 /\ 1 <= B <= C /\
        (exists shown, stdout w' = stdout w ++ shown ++ [(announcement v ++ nl)%string]) /\
        chips (user (game w')) = C - B + payout v B /\
        (length (stdin w') < length (stdin w))%nat /\
        total_cards (shoe (game w')) = total_cards (shoe (game w)) /\
        stock (game w') = stock (game w) /\
        user_hand (user (game w')) = Hand_init /\
        dealer_hand (dealer (game w')) = Hand_init
  | Raised e w' =>
      (C < 1 /\ e = GameError "Min/Max bet error" /\ w' = w) \/
      (1 <= C /\ (after_bet e \/ e = ValueError))
  | OutOfFuel => False
  end.
Proof.
  intros C. destruct (play_round w) as [[] w' | e w' |] eqn:E.
  - destruct (play_round_Ok w w' E)
      as (B & w1 & wr & v & Hb & HB & _ & _ & _ & Ho & _ & Hc & [out Hor] & Hrest).
    exists B, w1, v.
    split; [exact Hb |]. split; [exact HB |]. split; [| split; [exact Hc | exact Hrest]].
    exists (out ++ table_shown (game wr)).
    rewrite Ho, Hor. rewrite <- !app_assoc. reflexivity.
  - rewrite play_round_split in E. unfold bind at 1 in E.
    pose proof (round_before_results_spec w) as S. fold C in S.
    destruct (round_before_results w) as [B wr | e1 wr |]; [| | contradiction].
    + exfalso. destruct (results_run B wr) as (w7 & v & E7 & _).
      unfold bind in E. rewrite E7 in E.
      destruct (return_cards_run w7) as (w8 & E8 & _). rewrite E8 in E. discriminate.
    + injection E as <- <-. exact S.
  - rewrite play_round_split in E. unfold bind at 1 in E.
    pose proof (round_before_results_spec w) as S.
    destruct (round_before_results w) as [B wr | e1 wr |]; [| discriminate | contradiction].
    destruct (results_run B wr) as (w7 & v & E7 & _).
    unfold bind in E. rewrite E7 in E.
    destruct (return_cards_run w7) as (w8 & E8 & _). rewrite E8 in E. discriminate.
Qed.

(** C3: in a round that runs to its end, the user placed a bet [B]
    between 1 and the chips [C] held at the start, and the bet was
    taken from the chips.  The steps before [results] end in a world
    [wr]; the verdict [v] is the one the tests of [results] give on the
    two hands of [wr], which are the hands the round shows last, before
    it announces [v], and whose cards it then moves to the garbage pile.
    The chips held at the end are [C - B] when the dealer wins, [C + B]
    when the user wins and [C] on a tie. *)
Theorem round_payout (w w' : World) :
  play_round w = Ok tt w' ->
  let C := chips (user (game w)) in
  exists B w1 wr v,
    number_of_chips_to_bet w = Ok B w1 /\ 1 <= B <= C /\
    round_before_results w = Ok B wr /\
    chips (user (game wr)) = C - B /\
    v = winner (user_hand (user (game wr))) (dealer_hand (dealer (game wr))) /\
    stdout w' = stdout wr ++ table_shown (game wr) ++ [(announcement v ++ nl)%string] /\
    garbage_pile (shoe (game w')) =
      garbage_pile (shoe (game wr)) ++ hand_cards (user_hand (user (game wr)))
        ++ hand_cards (dealer_hand (dealer (game wr))) /\
    chips (user (game w')) =
      match v with
      | DealerWins => C - B
      | UserWins => C + B
      | TieGame => C
      end.
Proof.
  intros H C. destruct (play_round_Ok w w' H)
    as (B & w1 & wr & v & Hb & HB & Hr & Hcr & Hv & Ho & Hg & Hc & _).
  fold C in HB, Hcr, Hc.
  exists B, w1, wr, v. repeat apply conj; auto; try lia.
  rewrite Hc. destruct v; simpl; lia.
Qed.

(** C4: [results] ends on one announcement and one payout, chosen by
    the first of five tests that succeeds: the user is bust (dealer
    wins, nothing paid); the dealer is bust (user wins, twice the bet
    paid); the dealer's value is the greater (dealer wins); the user's
    value is the greater (user wins, twice the bet paid); the values are
    equal (tie, the bet paid back).  It changes nothing else. *)
Theorem results_resolution (bet : Z) (w : World) :
  let u := user_hand (user (game w)) in
  let d := dealer_hand (dealer (game w)) in
  exists w' v,
    results bet w = Ok tt w' /\
    stdout w' = stdout w ++ table_shown (game w) ++ [(announcement v ++ nl)%string] /\
    chips (user (game w')) = chips (user (game w)) + payout v bet /\
    user_hand (user (game w')) = u /\ dealer (game w') = dealer (game w) /\
    shoe (game w') = shoe (game w) /\ stdin w' = stdin w /\
    (is_bust u = true -> v = DealerWins /\ payout v bet = 0) /\
    (is_bust u = false -> is_bust d = true -> v = UserWins /\ payout v bet = 2 * bet) /\
    (is_bust u = false -> is_bust d = false -> hand_value d > hand_value u ->
       v = DealerWins /\ payout v bet = 0) /\
    (is_bust u = false -> is_bust d = false -> hand_value u > hand_value d ->
       v = UserWins /\ payout v bet = 2 * bet) /\
    (is_bust u = false -> is_bust d = false -> hand_value u = hand_value d ->
       v = TieGame /\ payout v bet = 1 * bet).
Proof.
  intros u d.
  destruct (results_run bet w) as (w' & v & Hr & Ho & Hc & Hu & Hd & Hs & Hi & _ & Hv).
  fold u d in Hv. exists w', v.
  repeat apply conj; auto; rewrite Hv; clear Hv.
  - intros ->. auto.
  - intros -> ->. simpl. split; [reflexivity | lia].
  - intros -> -> Hgt. destruct (Z.gtb_spec (hand_value d) (hand_value u)); [auto | lia].
  - intros -> -> Hgt.
    destruct (Z.gtb_spec (hand_value d) (hand_value u)); [lia |].
    destruct (Z.gtb_spec (hand_value u) (hand_value d)); [| lia].
    simpl. split; [reflexivity | lia].
  - intros -> -> Heq.
    destruct (Z.gtb_spec (hand_value d) (hand_value u)); [lia |].
    destruct (Z.gtb_spec (hand_value u) (hand_value d)); [lia |].
    simpl. split; [reflexivity | lia].
Qed.

(** ** The session *)

Lemma shuffle_cards_stock (g : Game) (r : Random) :
  let g' := mkGame (dealer g) (user g) (fst (shuffle_cards (shoe g) r)) in
  stock g' = stock g /\ total_cards (shoe g') = total_cards (shoe g).
Proof.
  unfold shuffle_cards.
  pose proof (shuffle_length (cards (shoe g) ++ garbage_pile (shoe g)) r) as HL.
  destruct (shuffle _ r) as [cs r']. cbn [fst] in *.
  unfold stock. cbn. rewrite HL, length_app. split; [lia | reflexivity].
Qed.

(** The reshuffle test of [play] and the reshuffle it may trigger, then
    the rest [k]: the rest runs from a world with the same players,
    input and output, and the same stock of cards. *)
Lemma reshuffle_step {A} (k : M A) (w : World) :
  exists w1,
    (required <- shoe_shuffle_required ;;
     (if required then shoe_shuffle_cards else ret tt) ;;; k) w = k w1 /\
    user (game w1) = user (game w) /\ dealer (game w1) = dealer (game w) /\
    stdin w1 = stdin w /\ stdout w1 = stdout w /\
    stock (game w1) = stock (game w) /\
    total_cards (shoe (game w1)) = total_cards (shoe (game w)).
Proof.
  cbv beta iota zeta delta
    [bind shoe_shuffle_required shuffle_required get_game ret put_shoe put_game].
  cbn [game stdin stdout random dealer user shoe].
  destruct (half_lt _ _).
  - unfold shoe_shuffle_cards. cbn [game stdin stdout random dealer user shoe].
    pose proof (shuffle_cards_stock (game w) (random w)) as [Hs Ht].
    destruct (shuffle_cards (shoe (game w)) (random w)) as [s r]. cbn [fst] in *.
    eexists. split; [reflexivity |]. repeat apply conj; try reflexivity; assumption.
  - eexists. split; [reflexivity |]. repeat apply conj; reflexivity.
Qed.

Lemma play_loop_spec (fuel : nat) (w : World) :
  (length (stdin w) < fuel)%nat ->
  match play_loop fuel w with
  | Ok _ w' => conserved (game w) -> conserved (game w')
  | Raised e _ => after_bet e \/ e = ValueError
  | OutOfFuel => False
  end.
Proof.
  revert w. induction fuel as [| k IH]; intros w Hf; [lia |].
  change (play_loop (S k) w)
    with ((if negb (has_chips (user (game w))) then ret tt
           else
             response <- yes_or_no ("You have " ++ str_int (chips (user (game w))) ++
                                    " chips. Would you like to play a round? ")%string ;;
             if response then
               required <- shoe_shuffle_required ;;
               (if required then shoe_shuffle_cards else ret tt) ;;;
               play_round ;;;
               play_loop k
             else ret tt) w).
  destruct (has_chips (user (game w))) eqn:Hh; cbn [negb]; [| cbn; auto].
  unfold has_chips in Hh. apply Z.gtb_lt in Hh.
  unfold bind at 1, yes_or_no.
  match goal with |- context [asking ?p ?c (fun line => answer_of (?a line)) w] =>
    pose proof (asking_words_spec p c a w) as Hr;
    destruct (asking p c (fun line => answer_of (a line)) w) as [resp wa | e wa |]
  end; [| left; left; apply Hr | contradiction].
  destruct Hr as (Hg & Hl & _).
  destruct resp; [| cbn; rewrite Hg; auto].
  destruct (reshuffle_step (play_round ;;; play_loop k) wa)
    as (w1 & -> & Hu1 & Hd1 & Hi1 & _ & Hs1 & Ht1).
  unfold bind. pose proof (play_round_spec w1) as Hp.
  destruct (play_round w1) as [[] w2 | e w2 |]; [| | contradiction].
  - destruct Hp as (B & wb & v & _ & _ & _ & _ & Hl2 & Ht2 & Hs2 & _).
    specialize (IH w2 ltac:(rewrite Hi1 in Hl2; lia)).
    destruct (play_loop k w2) as [[] w3 | e w3 |]; auto.
    intros Hc. apply IH. unfold conserved in *.
    rewrite Hs2, Ht2, Hs1, Ht1, Hg. exact Hc.
  - destruct Hp as [(Hc & _) | (_ & Ha)]; [| exact Ha].
    rewrite Hu1, Hg in Hc. lia.
Qed.

Lemma play_spec (w : World) :
  match play w with
  | Ok _ w' => conserved (game w) -> conserved (game w')
  | Raised e _ => after_bet e \/ e = ValueError
  | OutOfFuel => False
  end.
Proof. apply play_loop_spec. lia. Qed.

Lemma Game_init_conserved (r : Random) : conserved (fst (Game_init r)).
Proof.
  unfold Game_init.
  pose proof (Shoe_init_one_deck r) as (L & G & _ & T).
  destruct (Shoe_init 1 r) as [s r']. cbn [fst] in *.
  unfold conserved, stock. cbn. rewrite L, G, T. reflexivity.
Qed.

(** Rounds keep the cards accounted for and leave both hands empty, so
    each reshuffle of a session finds the whole shoe in the live pool
    and the garbage pile. *)
Lemma play_round_conserved (w w' : World) :
  conserved (game w) -> play_round w = Ok tt w' ->
  conserved (game w') /\ cards_in_hands (game w') = 0.
Proof.
  intros Hc H. pose proof (play_round_spec w) as S. rewrite H in S.
  destruct S as (B & w1 & v & _ & _ & _ & _ & _ & Ht & Hs & Hu & Hd).
  split.
  - unfold conserved in *. rewrite Hs, Ht. exact Hc.
  - unfold cards_in_hands. rewrite Hu, Hd. reflexivity.
Qed.

(** [main] always comes to an end, and the only exceptions that escape
    it are the ones [GameError] does not cover. *)
Lemma main_total (lines : list string) (r : Random) :
  match main lines r with
  | Ok _ _ => True
  | Raised e _ => e = AttributeError \/ e = IndexError \/ e = ValueError
  | OutOfFuel => False
  end.
Proof.
  unfold main. destruct (Game_init r) as [g r'].
  pose proof (play_spec (mkWorld g lines [] r')) as H.
  destruct (play _) as [[] w | e w |]; [exact I | | contradiction].
  destruct H as [[-> | [-> | ->]] | ->]; cbn; auto.
Qed.

(** C9: [number_of_chips_to_bet] raises its bet error exactly when the
    minimum bet, 1, exceeds the chips of the user, and it then raises
    in the world it was called in, nothing read and nothing written;
    with at least one chip it can raise only the [GameError] for the
    end of input, once the input is used up, or the [ValueError] of
    [int] on a text of digit characters it does not read.  The session
    loop [play] never lets the bet error out, whatever the game it
    starts from and whatever is typed: each pass tests the chips before
    it asks for a bet. *)
Theorem bet_error_only_without_chips (w : World) :
  let C := chips (user (game w)) in
  (1 > C -> number_of_chips_to_bet w = Raised (GameError "Min/Max bet error") w) /\
  (forall w', number_of_chips_to_bet w = Raised (GameError "Min/Max bet error") w' ->
              1 > C /\ w' = w) /\
  (1 <= C -> forall e w', number_of_chips_to_bet w = Raised e w' ->
             (e = GameError "EOFError" /\ stdin w' = []) \/
             (e = ValueError /\
              exists line, isdigit (strip line) = true /\ int (strip line) = None)) /\
  (forall w', play w <> Raised (GameError "Min/Max bet error") w').
Proof.
  intros C. repeat apply conj.
  - intros Hc. unfold number_of_chips_to_bet.
    cbv beta iota zeta delta [bind get_user get_game ret]. fold C.
    destruct (Z.gtb_spec 1 C); [reflexivity | lia].
  - intros w' H. pose proof (number_of_chips_to_bet_spec w) as S.
    rewrite H in S. fold C in S.
    destruct S as [(Hc & _ & Hw) | (_ & _ & [[He _] | [He _]])];
      [split; [lia | exact Hw] | discriminate ..].
  - intros Hc e w' H. pose proof (number_of_chips_to_bet_spec w) as S.
    rewrite H in S. fold C in S.
    destruct S as [(Hlt & _) | (_ & _ & S)]; [lia | exact S].
  - intros w' H. pose proof (play_spec w) as S. rewrite H in S.
    destruct S as [[S | [S | S]] | S]; discriminate.
Qed.

(** A bet typed as the superscript two, the code point 178: [isdigit]
    accepts it, [int] does not read it, and the [ValueError] goes
    through [main]. *)
Lemma superscript_bet_raises :
  let two := String "178" EmptyString in
  isdigit two = true /\ int two = None /\
  (exists w', number_of_chips_to_bet (opening [two]) = Raised ValueError w') /\
  (exists w', main ["y"; two] (mkRandom (fun n => n) 0) = Raised ValueError w').
Proof.
  intros two. split; [reflexivity |]. split; [reflexivity |].
  split; eexists; vm_compute; reflexivity.
Qed.

Lemma bet_error_only_without_chips_witness :
  let broke := mkWorld (mkGame Dealer_init (mkUser Hand_init 0)
                               (shoe (game (opening ["7"]))))
                       ["7"] [] (random (opening ["7"])) in
  1 > chips (user (game broke)) /\
  number_of_chips_to_bet broke = Raised (GameError "Min/Max bet error") broke /\
  forall w', play (opening ["yes"; "7"]) <> Raised (GameError "Min/Max bet error") w'.
Proof.
  intros broke. split; [reflexivity |]. split.
  - apply (bet_error_only_without_chips broke). reflexivity.
  - apply (bet_error_only_without_chips (opening ["yes"; "7"])).
Defined.



Lemma round_payout_witness :
  let w := opening ["10"; "s"] in
  exists w',
    play_round w = Ok tt w' /\
    exists B w1 wr v,
      number_of_chips_to_bet w = Ok B w1 /\
      1 <= B <= chips (user (game w)) /\
      round_before_results w = Ok B wr /\
      chips (user (game wr)) = chips (user (game w)) - B /\
      v = winner (user_hand (user (game wr))) (dealer_hand (dealer (game wr))) /\
      stdout w' = stdout wr ++ table_shown (game wr) ++ [(announcement v ++ nl)%string] /\
      garbage_pile (shoe (game w')) =
        garbage_pile (shoe (game wr)) ++ hand_cards (user_hand (user (game wr)))
          ++ hand_cards (dealer_hand (dealer (game wr))) /\
      chips (user (game w')) =
        match v with
        | DealerWins => chips (user (game w)) - B
        | UserWins => chips (user (game w)) + B
        | TieGame => chips (user (game w))
        end.
Proof.
  intros w. eexists. split.
  - vm_compute. reflexivity.
  - apply (round_payout w). vm_compute. reflexivity.
Defined.

Lemma results_resolution_witness :
  let table u d := mkWorld (mkGame (mkDealer (add_cards d Hand_init))
                                   (mkUser (add_cards u Hand_init) 90)
                                   (mkShoe [] [] 0 52))
                           [] [] (mkRandom (fun n => n) 0) in
  let nineteen := [mkCard ten clubs; mkCard nine diamonds] in
  let sixteen := [mkCard six hearts; mkCard ten spades] in
  (exists w', results 10 (table nineteen sixteen) = Ok tt w' /\
              chips (user (game w')) = 110) /\
  (exists w', results 10 (table sixteen nineteen) = Ok tt w' /\
              chips (user (game w')) = 90) /\
  (exists w', results 10 (table nineteen nineteen) = Ok tt w' /\
              chips (user (game w')) = 100).
Proof.
  intros table nineteen sixteen. repeat apply conj.
  - destruct (results_resolution 10 (table nineteen sixteen))
      as (w' & v & Hr & _ & Hc & _ & _ & _ & _ & _ & _ & _ & H4 & _).
    exists w'. split; [exact Hr |].
    destruct H4 as [_ Hp]; [reflexivity | reflexivity | reflexivity |].
    rewrite Hc, Hp. reflexivity.
  - destruct (results_resolution 10 (table sixteen nineteen))
      as (w' & v & Hr & _ & Hc & _ & _ & _ & _ & _ & _ & H3 & _).
    exists w'. split; [exact Hr |].
    destruct H3 as [_ Hp]; [reflexivity | reflexivity | reflexivity |].
    rewrite Hc, Hp. reflexivity.
  - destruct (results_resolution 10 (table nineteen nineteen))
      as (w' & v & Hr & _ & Hc & _ & _ & _ & _ & _ & _ & _ & _ & H5).
    exists w'. split; [exact Hr |].
    destruct H5 as [_ Hp]; [reflexivity | reflexivity | reflexivity |].
    rewrite Hc, Hp. reflexivity.
Defined.

Lemma shuffle_cards_spec_witness :
  let g := mkGame (mkDealer (add_cards [mkCard six hearts] Hand_init))
                  (mkUser (add_cards [mkCard ten clubs] Hand_init) 90)
                  (mkShoe [mkCard two spades] [mkCard king hearts; mkCard ace clubs] 4 5) in
  let r := mkRandom (fun n => n) 0 in
  conserved g /\
  garbage_pile (fst (shuffle_cards (shoe g) r)) = [] /\
  card_counter (fst (shuffle_cards (shoe g) r)) = 0 /\
  Z.of_nat (length (cards (fst (shuffle_cards (shoe g) r)))) = 5 - 2.
Proof.
  intros g r.
  assert (Hc : conserved g) by reflexivity.
  split; [exact Hc |].
  destruct (shuffle_cards_spec g r) as (_ & Hg & Hk & _ & _ & Hl).
  apply Hl in Hc.
  repeat apply conj; assumption.
Defined.

(** ** List objects and the default argument *)

Lemma deref_update_eq (l : nat) (v : list Card) (st : Shared.Store) :
  Shared.deref (Shared.update l v st) l = v.
Proof.
  unfold Shared.deref, Shared.update. cbn. rewrite lookup_insert_eq. reflexivity.
Qed.

Lemma deref_update_ne (l l' : nat) (v : list Card) (st : Shared.Store) :
  l <> l' -> Shared.deref (Shared.update l v st) l' = Shared.deref st l'.
Proof.
  intros H. unfold Shared.deref, Shared.update. cbn.
  rewrite lookup_insert_ne by exact H. reflexivity.
Qed.

(** One call of [get_cards_to_garbage_pile] on any store: the pile of
    the shoe gains the elements of the argument, and every other list
    object is as before. *)
Lemma get_cards_frame (s : Shared.Shoe) (d : option nat) (st : Shared.Store) :
  let st' := Shared.get_cards_to_garbage_pile s d st in
  Shared.deref st' (Shared.garbage_pile s) =
    Shared.deref st (Shared.garbage_pile s) ++ Shared.deref st (Shared.argument d) /\
  (forall l, l <> Shared.garbage_pile s -> Shared.deref st' l = Shared.deref st l) /\
  Shared.next st' = Shared.next st.
Proof.
  unfold Shared.get_cards_to_garbage_pile, Shared.iadd. cbn zeta.
  split; [apply deref_update_eq |]. split; [| reflexivity].
  intros l H. apply deref_update_ne. auto.
Qed.

Lemma sound_start (r : Random) : Shared.sound (Shared.start r).
Proof.
  unfold Shared.sound, Shared.start. cbn. repeat split; auto.
Qed.

Lemma sound_step (c : Shared.call) (x x' : Shared.State) :
  Shared.sound x -> Shared.step c x = Some x' -> Shared.sound x'.
Proof.
  intros (Hn & Hd & Hs) H. unfold Shared.default_arg in *.
  destruct c as [n | v | i | i d | i]; cbn [Shared.step] in H.
  - unfold Shared.Shoe_init, Shared.alloc in H. cbn [Shared.next] in H.
    destruct (shuffle _ (Shared.rnd x)) as [cs r'].
    injection H as <-. unfold Shared.sound. cbn.
    repeat apply conj; [lia | |].
    + unfold Shared.deref in *. cbn. unfold Shared.default_arg.
      rewrite !lookup_insert_ne by lia. exact Hd.
    + apply Forall_app. split; [exact Hs |].
      constructor; [| constructor]. cbn. unfold Shared.default_arg. lia.
  - injection H as <-. unfold Shared.sound. cbn.
    repeat apply conj; [lia | | exact Hs].
    unfold Shared.deref in *. cbn. rewrite lookup_insert_ne by (unfold Shared.default_arg; lia).
    exact Hd.
  - destruct (Shared.shoes x !! i) as [s |] eqn:Ei; [| discriminate].
    assert (Hsi : Shared.garbage_pile s <> 0%nat /\ Shared.cards s <> 0%nat).
    { eapply (proj1 (Forall_lookup _ _)) in Hs; eauto. }
    unfold Shared.deal_card in H.
    destruct (pop _) as [[c rest] |]; injection H as <-; unfold Shared.sound; cbn.
    + repeat apply conj; [exact Hn | |].
      * rewrite deref_update_ne by (unfold Shared.default_arg; tauto). exact Hd.
      * apply Forall_insert; [exact Hs | cbn; exact Hsi].
    + repeat apply conj; [exact Hn | exact Hd |].
      apply Forall_insert; [exact Hs | exact Hsi].
  - destruct (Shared.shoes x !! i) as [s |] eqn:Ei; [| discriminate].
    assert (Hsi : Shared.garbage_pile s <> 0%nat /\ Shared.cards s <> 0%nat).
    { eapply (proj1 (Forall_lookup _ _)) in Hs; eauto. }
    destruct (bool_decide _); [| discriminate].
    injection H as <-. unfold Shared.sound. cbn.
    repeat apply conj; [exact Hn | | exact Hs].
    destruct (get_cards_frame s d (Shared.store x)) as (_ & Hf & _).
    rewrite Hf by (unfold Shared.default_arg; intros E; symmetry in E; tauto).
    exact Hd.
  - destruct (Shared.shoes x !! i) as [s |] eqn:Ei; [| discriminate].
    assert (Hsi : Shared.garbage_pile s <> 0%nat /\ Shared.cards s <> 0%nat).
    { eapply (proj1 (Forall_lookup _ _)) in Hs; eauto. }
    unfold Shared.shuffle_cards, Shared.alloc in H. cbn [Shared.next] in H.
    destruct (shuffle _ (Shared.rnd x)) as [cs r'].
    injection H as <-. unfold Shared.sound. cbn.
    repeat apply conj; [lia | |].
    + rewrite deref_update_ne by (unfold Shared.default_arg; tauto).
      unfold Shared.deref at 1. cbn.
      rewrite lookup_insert_ne by (unfold Shared.default_arg; lia).
      unfold Shared.default_arg. rewrite lookup_insert_ne by tauto. exact Hd.
    + apply Forall_insert; [exact Hs |]. cbn. unfold Shared.default_arg.
      split; [lia | tauto].
Qed.

Lemma sound_run (cs : list Shared.call) (x x' : Shared.State) :
  Shared.sound x -> Shared.run cs x = Some x' -> Shared.sound x'.
Proof.
  revert x. induction cs as [| c cs IH]; intros x Hx H; cbn in H.
  - injection H as <-. exact Hx.
  - destruct (Shared.step c x) as [x1 |] eqn:E; [| discriminate].
    eapply IH; [eapply sound_step; eassumption | exact H].
Qed.

(** C10 as stated fails when the list passed is the shoe's own garbage
    pile: a client creates a shoe, discards one king into it, and then
    passes the pile of the shoe as [discarded_cards]; the list it passed
    held one king before the call and holds two after it. *)
Lemma discard_changes_own_pile :
  let king_of_hearts := mkCard king hearts in
  let calls := [Shared.New 1; Shared.MakeList [king_of_hearts];
                Shared.Discard 0 (Some 3%nat)] in
  exists x s,
    Shared.run calls (Shared.start (mkRandom (fun n => n) 0)) = Some x /\
    Shared.shoes x !! 0%nat = Some s /\
    let passed := Shared.garbage_pile s in
    let st' := Shared.get_cards_to_garbage_pile s (Some passed) (Shared.store x) in
    Shared.deref (Shared.store x) passed = [king_of_hearts] /\
    Shared.deref st' passed = [king_of_hearts; king_of_hearts] /\
    Shared.deref st' passed <> Shared.deref (Shared.store x) passed.
Proof.
  intros king_of_hearts calls.
  destruct (Shared.run calls (Shared.start (mkRandom (fun n => n) 0)))
    as [x |] eqn:Ex; [| vm_compute in Ex; discriminate].
  destruct (Shared.shoes x !! 0%nat) as [s |] eqn:Es.
  2: { exfalso. revert Es. vm_compute in Ex. injection Ex as <-. vm_compute. discriminate. }
  exists x, s. split; [reflexivity |]. split; [exact Es |].
  assert (Hp : Shared.garbage_pile s = 1%nat).
  { revert Es. vm_compute in Ex. injection Ex as <-. vm_compute. intros [= <-]. reflexivity. }
  assert (Hd : Shared.deref (Shared.store x) 1%nat = [king_of_hearts]).
  { vm_compute in Ex. injection Ex as <-. vm_compute. reflexivity. }
  cbn zeta. rewrite Hp.
  destruct (get_cards_frame s (Some 1%nat) (Shared.store x)) as (Hg & _).
  rewrite Hp in Hg. cbn [Shared.argument] in Hg.
  rewrite Hg, Hd. repeat split. discriminate.
Qed.

(** C10 as the code has it: in any state a client of the class can
    reach, a call of [get_cards_to_garbage_pile] extends the garbage pile
    of the shoe by the elements of the list passed and leaves every other
    list object as it was, the list passed included unless it is that
    pile itself; the default argument is empty before and after the
    call; and a call without argument leaves every list, the pile
    included, as it was. *)
Theorem discard_frame (calls : list Shared.call) (r : Random) (x : Shared.State)
    (i : nat) (s : Shared.Shoe) (d : option nat) :
  Shared.run calls (Shared.start r) = Some x ->
  Shared.shoes x !! i = Some s ->
  let st := Shared.store x in
  let st' := Shared.get_cards_to_garbage_pile s d st in
  (Shared.argument d <> Shared.garbage_pile s ->
   Shared.deref st' (Shared.argument d) = Shared.deref st (Shared.argument d)) /\
  Shared.deref st' (Shared.garbage_pile s) =
    Shared.deref st (Shared.garbage_pile s) ++ Shared.deref st (Shared.argument d) /\
  (forall l, l <> Shared.garbage_pile s -> Shared.deref st' l = Shared.deref st l) /\
  Shared.deref st Shared.default_arg = [] /\
  Shared.deref st' Shared.default_arg = [] /\
  (d = None -> forall l, Shared.deref st' l = Shared.deref st l).
Proof.
  intros Hrun Hs st st'.
  destruct (sound_run calls _ x (sound_start r) Hrun) as (_ & Hd & Hf).
  assert (Hsi : Shared.garbage_pile s <> Shared.default_arg).
  { eapply (proj1 (Forall_lookup _ _)) in Hf; [apply Hf | exact Hs]. }
  destruct (get_cards_frame s d st) as (Hg & Hframe & _). fold st' in Hg, Hframe.
  fold st in Hd.
  repeat apply conj; auto.
  - rewrite Hframe by auto. exact Hd.
  - intros -> l. destruct (decide (l = Shared.garbage_pile s)) as [-> | Hne].
    + rewrite Hg. cbn [Shared.argument]. rewrite Hd. apply app_nil_r.
    + apply Hframe, Hne.
Qed.

Lemma discard_frame_witness :
  let king_of_hearts := mkCard king hearts in
  let calls := [Shared.New 1; Shared.MakeList [king_of_hearts];
                Shared.Discard 0 (Some 3%nat); Shared.Discard 0 None] in
  exists x s,
    Shared.run calls (Shared.start (mkRandom (fun n => n) 0)) = Some x /\
    Shared.shoes x !! 0%nat = Some s /\
    Shared.deref (Shared.store x) Shared.default_arg = [] /\
    Shared.deref (Shared.get_cards_to_garbage_pile s None (Shared.store x))
                 (Shared.garbage_pile s)
    = Shared.deref (Shared.store x) (Shared.garbage_pile s).
Proof.
  intros king_of_hearts calls.
  destruct (Shared.run calls (Shared.start (mkRandom (fun n => n) 0)))
    as [x |] eqn:Ex; [| vm_compute in Ex; discriminate].
  destruct (Shared.shoes x !! 0%nat) as [s |] eqn:Es.
  2: { exfalso. revert Es. vm_compute in Ex. injection Ex as <-. vm_compute. discriminate. }
  exists x, s. split; [reflexivity |]. split; [exact Es |].
  destruct (discard_frame calls _ x 0%nat s None Ex Es) as (_ & _ & _ & Hd & _ & Hn).
  split; [exact Hd | apply Hn; reflexivity].
Defined.

(** * Further properties *)

(** ** Hands *)

Lemma hard_total_app (a b : list Card) :
  hard_total (a ++ b) = hard_total a + hard_total b.
Proof.
  induction a as [| c a IH]; simpl; [reflexivity | rewrite IH; lia].
Qed.

Lemma count_aces_app (a b : list Card) :
  count_aces (a ++ b) = count_aces a + count_aces b.
Proof.
  unfold count_aces. rewrite filter_app, length_app. lia.
Qed.

Lemma count_aces_one (c : Card) :
  count_aces [c] = if is_ace c then 1 else 0.
Proof.
  unfold count_aces. cbn. destruct (decide (is_ace c = true)) as [-> | H].
  - reflexivity.
  - destruct (is_ace c); [contradiction | reflexivity].
Qed.

Lemma hard_points_bounds (c : Card) :
  1 <= hard_points c <= 10 /\
  card_points c = hard_points c + (if is_ace c then 10 else 0) /\
  (if is_ace c then hard_points c = 1 else 2 <= hard_points c).
Proof.
  unfold hard_points, card_points, is_ace, is_face.
  destruct (Rank_eqb (rank c) ace) eqn:Ha; [lia |].
  destruct (Rank_eqb (rank c) jack || Rank_eqb (rank c) queen
            || Rank_eqb (rank c) king) eqn:Hf; [lia |].
  destruct (int_numeral _ Ha Hf) as (n & Hn & Hb).
  unfold rank_int. rewrite Hn. lia.
Qed.

Lemma count_aces_le_hard (cs : list Card) : 0 <= count_aces cs <= hard_total cs.
Proof.
  induction cs as [| c cs IH]; [unfold count_aces; cbn; lia |].
  change (c :: cs) with ([c] ++ cs).
  rewrite count_aces_app, hard_total_app, count_aces_one. cbn [hard_total].
  pose proof (hard_points_bounds c) as (Hb & _ & Hq).
  destruct (is_ace c); lia.
Qed.

Lemma add_cards_snoc (cs : list Card) (c : Card) (h : Hand) :
  add_cards (cs ++ [c]) h = Hand_add_card c (add_cards cs h).
Proof. unfold add_cards. rewrite fold_left_app. reflexivity. Qed.

(** X1: whatever cards are added to a new hand, and in whatever order,
    the hand records them in that order, its count of soft aces lies
    between 0 and the number of aces it holds, and its value is the
    total with every ace at 1 plus 10 for each soft ace. *)
Theorem hand_accounting (cs : list Card) :
  let h := add_cards cs Hand_init in
  hand_cards h = cs /\
  0 <= number_of_aces h <= count_aces cs /\
  hand_value h = hard_total cs + 10 * number_of_aces h.
Proof.
  induction cs as [| c cs IH] using rev_ind.
  - unfold count_aces. cbn. repeat split; try reflexivity; lia.
  - rewrite add_cards_snoc. cbn zeta in *.
    destruct IH as (Hc & Hn & Hv).
    destruct (Hand_add_card_value c (add_cards cs Hand_init)) as (Ev & Ea & Ec).
    cbn zeta in Ev, Ea.
    pose proof (hard_points_bounds c) as (Hb & Hp & Hq).
    rewrite Ev, Ea, Ec, Hc, hard_total_app, count_aces_app, count_aces_one.
    cbn [hard_total]. rewrite Hv, Hp.
    split; [reflexivity |].
    destruct (is_ace c);
      match goal with |- context [?a >? 21] => destruct (Z.gtb_spec a 21) end;
      cbn [andb];
      try match goal with |- context [?a >? 0] => destruct (Z.gtb_spec a 0) end;
      lia.
Qed.

(** The bookkeeping of a hand in play: some ace demoted means the value
    is at least 12, whence no ace could be counted 11 again. *)
Lemma dealt_in_play_books (h : Hand) :
  dealt_in_play h ->
  0 <= number_of_aces h <= count_aces (hand_cards h) /\
  hand_value h = hard_total (hand_cards h) + 10 * number_of_aces h /\
  (21 < hand_value h -> number_of_aces h = 0) /\
  (number_of_aces h < count_aces (hand_cards h) -> 12 <= hand_value h) /\
  0 <= hard_total (hand_cards h).
Proof.
  induction 1 as [| c h _ IH Hlt].
  - unfold count_aces. cbn. repeat split; try reflexivity; lia.
  - destruct IH as (Hn & Hv & Hs & Hd & Hh).
    destruct (Hand_add_card_value c h) as (Ev & Ea & Ec). cbn zeta in Ev, Ea.
    pose proof (hard_points_bounds c) as (Hb & Hp & Hq).
    rewrite Ev, Ea, Ec, hard_total_app, count_aces_app, count_aces_one.
    cbn [hard_total]. rewrite Hp.
    destruct (is_ace c);
      match goal with |- context [?a >? 21] => destruct (Z.gtb_spec a 21) end;
      cbn [andb];
      try match goal with |- context [?a >? 0] => destruct (Z.gtb_spec a 0) end;
      repeat split; lia.
Qed.

(** X2: a hand that comes up in play is worth what the rule of blackjack
    says, the best total not over 21 when there is one: the docstring of
    [update_hand_value] holds for every hand the game builds. *)
Theorem in_play_best_value (h : Hand) :
  dealt_in_play h -> hand_value h = best_total (hand_cards h).
Proof.
  intros H. destruct (dealt_in_play_books h H) as (Hn & Hv & Hs & Hd & Hh).
  pose proof (count_aces_le_hard (hand_cards h)) as Hc.
  unfold best_total.
  destruct (Z.ltb_spec 0 (count_aces (hand_cards h)));
    destruct (Z.leb_spec (hard_total (hand_cards h) + 10) 21); cbn [andb]; lia.
Qed.

Lemma in_play_best_value_witness :
  let h := Hand_add_card (mkCard nine clubs)
             (Hand_add_card (mkCard ace hearts)
                (Hand_add_card (mkCard ace spades) Hand_init)) in
  dealt_in_play h /\ hand_value h = 21 /\ best_total (hand_cards h) = 21.
Proof.
  intros h.
  assert (H : dealt_in_play h).
  { repeat (apply in_play_add; [| vm_compute; reflexivity]). apply in_play_empty. }
  split; [exact H |].
  split; [reflexivity |].
  rewrite <- (in_play_best_value h H). reflexivity.
Defined.

(** X3: resetting a hand gives back exactly the cards that were added
    to it, in the order they came, and leaves a new, empty hand. *)
Theorem reset_hand_returns_cards (cs : list Card) (h : Hand) :
  reset_hand (add_cards cs h) = (hand_cards h ++ cs, Hand_init).
Proof.
  induction cs as [| c cs IH] using rev_ind.
  - cbn. rewrite app_nil_r. reflexivity.
  - rewrite add_cards_snoc. unfold reset_hand in *.
    rewrite Hand_add_card_cards. injection IH as ->.
    rewrite app_assoc. reflexivity.
Qed.

(** ** Deck and shoe *)

(** X4: a deck holds 52 cards, and every card, that is every pair of a
    rank and a suit, exactly once. *)
Theorem Deck_has_each_card_once :
  length Deck_cards = 52%nat /\
  forall c : Card, count_occ Card_eq_dec Deck_cards c = 1%nat.
Proof.
  split; [reflexivity |].
  intros [r s]. destruct r, s; vm_compute; reflexivity.
Qed.

Lemma Deck_count_occ (c : Card) : count_occ Card_eq_dec Deck_cards c = 1%nat.
Proof. destruct c as [r s]. destruct r, s; vm_compute; reflexivity. Qed.

Lemma decks_count (n : nat) (c : Card) :
  count_occ Card_eq_dec (Nat.iter n (fun acc => acc ++ Deck_cards) []) c = n /\
  length (Nat.iter n (fun acc => acc ++ Deck_cards) []) = (52 * n)%nat.
Proof.
  induction n as [| n [IHc IHl]]; [split; reflexivity |].
  rewrite Nat.iter_succ, count_occ_app, length_app, IHc, IHl.
  rewrite (Deck_count_occ c). change (length Deck_cards) with 52%nat.
  split; lia.
Qed.

(** X5: a shoe built for [n] decks holds every card [n] times, and a
    request for fewer than one deck is served with one; its garbage
    pile is empty, nothing counts as dealt, [total_cards] is 52 per
    deck, and no reshuffle is due. *)
Theorem Shoe_init_contents (number_of_decks : Z) (r : Random) :
  let n := Z.max 1 number_of_decks in
  let s := fst (Shoe_init number_of_decks r) in
  (forall c : Card, count_occ Card_eq_dec (cards s) c = Z.to_nat n) /\
  Z.of_nat (length (cards s)) = 52 * n /\
  total_cards s = 52 * n /\
  garbage_pile s = [] /\ card_counter s = 0 /\
  fst (shuffle_required s) = false /\
  (number_of_decks < 1 -> Shoe_init number_of_decks r = Shoe_init 1 r).
Proof.
  intros n s.
  destruct (Shoe_init_spec number_of_decks r) as (HP & Hg & Hc & Ht).
  fold s in HP, Hg, Hc, Ht. cbn zeta in HP.
  assert (En : (if number_of_decks <? 1 then 1 else number_of_decks) = n).
  { unfold n. destruct (Z.ltb_spec number_of_decks 1); lia. }
  rewrite En in HP.
  assert (Hl : Z.of_nat (length (cards s)) = 52 * n).
  { rewrite (Permutation_length HP), (proj2 (decks_count _ (mkCard ace clubs))). lia. }
  repeat apply conj; auto.
  - intros c. rewrite (proj1 (Permutation_count_occ Card_eq_dec _ _) HP c).
    apply decks_count.
  - lia.
  - unfold shuffle_required. cbn [fst].
    destruct (half_lt (total_cards s) (card_counter s)) eqn:E; [| reflexivity].
    apply half_lt_spec in E. lia.
  - intros Hlt. unfold Shoe_init.
    destruct (Z.ltb_spec number_of_decks 1); [reflexivity | lia].
Qed.

Lemma Shoe_init_contents_witness :
  -3 < 1 /\
  Shoe_init (-3) (mkRandom (fun n => n) 0) = Shoe_init 1 (mkRandom (fun n => n) 0) /\
  total_cards (fst (Shoe_init 2 (mkRandom (fun n => n) 0))) = 104.
Proof.
  split; [reflexivity |]. split.
  - apply (Shoe_init_contents (-3) (mkRandom (fun n => n) 0)). reflexivity.
  - apply (Shoe_init_contents 2 (mkRandom (fun n => n) 0)).
Defined.

(** X6: cards dealt from a shoe, handed back to its garbage pile and
    reshuffled are all in the live pool again: the pool is then a
    rearrangement of what the pool and the pile held before the deal,
    the pile is empty, nothing counts as dealt, and no reshuffle is
    due. *)
Theorem deal_discard_reshuffle (s : Shoe) (n : nat) (r : Random) :
  (n <= length (cards s))%nat ->
  0 <= total_cards s ->
  exists dealt,
    fst (deal_many n s) = map Some dealt /\
    let back := get_cards_to_garbage_pile dealt (deal_cards n s) in
    let s' := fst (shuffle_cards back r) in
    cards s' ≡ₚ cards s ++ garbage_pile s /\
    garbage_pile s' = [] /\ card_counter s' = 0 /\
    total_cards s' = total_cards s /\
    fst (shuffle_required s') = false.
Proof.
  intros Hn Ht.
  destruct (deal_many_spec n s Hn) as (dealt & Hd & Hl & Hc & Hg & Hk & Htot).
  exists dealt. split; [exact Hd |]. cbn zeta.
  set (back := get_cards_to_garbage_pile dealt (deal_cards n s)).
  assert (Hb : total_cards back = total_cards s) by exact Htot.
  unfold shuffle_cards.
  pose proof (shuffle_Permutation (cards back ++ garbage_pile back) r) as HP.
  destruct (shuffle _ r) as [cs r']. cbn [fst] in *.
  cbn [cards garbage_pile card_counter total_cards].
  repeat apply conj; auto.
  - rewrite HP. subst back. cbn [get_cards_to_garbage_pile cards garbage_pile].
    rewrite Hg, Hc, <- !app_assoc. apply Permutation_app_head.
    rewrite (Permutation_app_comm (garbage_pile s) dealt).
    apply Permutation_app_tail. apply Permutation_rev.
  - unfold shuffle_required. cbn [fst total_cards card_counter]. rewrite Hb.
    destruct (half_lt (total_cards s) 0) eqn:E; [| reflexivity].
    apply half_lt_spec in E. lia.
Qed.

Lemma deal_discard_reshuffle_witness :
  let s := mkShoe [mkCard two clubs; mkCard king hearts; mkCard ace spades]
                  [mkCard six hearts] 1 4 in
  let r := mkRandom (fun n => n) 0 in
  (2 <= length (cards s))%nat /\ 0 <= total_cards s /\
  exists dealt,
    fst (deal_many 2 s) = map Some dealt /\
    length (cards (fst (shuffle_cards
                      (get_cards_to_garbage_pile dealt (deal_cards 2 s)) r))) = 4%nat.
Proof.
  intros s r.
  assert (H1 : (2 <= length (cards s))%nat) by (simpl; lia).
  assert (H2 : 0 <= total_cards s) by (simpl; lia).
  split; [exact H1 |]. split; [exact H2 |].
  destruct (deal_discard_reshuffle s 2 r H1 H2) as (dealt & Hd & HP & _).
  exists dealt. split; [exact Hd |].
  apply Permutation_length in HP. exact HP.
Defined.

(** ** The size of the hands in a game of one deck *)

Lemma dealt_below_in_play (k : Z) (h : Hand) :
  k <= 21 -> dealt_below k h -> dealt_in_play h.
Proof.
  intros Hk. induction 1 as [| c h _ IH Hv]; [apply in_play_empty |].
  apply in_play_add; [exact IH | lia].
Qed.

Lemma hard_total_size (cs : list Card) :
  2 * Z.of_nat (length cs) <= hard_total cs + count_aces cs.
Proof.
  induction cs as [| c cs IH]; [unfold count_aces; cbn; lia |].
  change (c :: cs) with ([c] ++ cs).
  rewrite count_aces_app, hard_total_app, count_aces_one, length_app.
  cbn [hard_total length].
  pose proof (hard_points_bounds c) as (Hb & _ & Hq).
  destruct (is_ace c); lia.
Qed.

(** A hand that was hit below [k] only holds few cards: twice their
    number is at most [k + 1] plus the number of its aces. *)
Lemma dealt_below_size (k : Z) (h : Hand) :
  0 <= k <= 21 -> dealt_below k h ->
  2 * Z.of_nat (length (hand_cards h)) <= k + 1 + count_aces (hand_cards h).
Proof.
  intros Hk H. destruct H as [| c h H Hv].
  - unfold count_aces. cbn. lia.
  - apply (dealt_below_in_play k) in H; [| lia].
    destruct (dealt_in_play_books h H) as (Hn & Hval & _).
    pose proof (hard_total_size (hand_cards h)) as Hs.
    pose proof (count_aces_le_hard [c]) as Hc.
    rewrite Hand_add_card_cards, length_app, count_aces_app. cbn [length].
    lia.
Qed.

Lemma count_aces_Permutation (a b : list Card) :
  a ≡ₚ b -> count_aces a = count_aces b.
Proof.
  intros H. unfold count_aces. rewrite H. reflexivity.
Qed.

(** In a game in good order the two hands hold 22 cards at most, so
    that 30 of the 52 are in the pool or the pile. *)
Lemma accounted_hands (g : Game) :
  accounted g ->
  (length (hand_cards (user_hand (user g)))
   + length (hand_cards (dealer_hand (dealer g))) <= 22)%nat /\
  (length (cards (shoe g)) + length (garbage_pile (shoe g))
   + length (hand_cards (user_hand (user g)))
   + length (hand_cards (dealer_hand (dealer g))) = 52)%nat.
Proof.
  intros [Hd Hu Hde _ _].
  pose proof (dealt_below_size 21 _ ltac:(lia) Hu) as Su.
  pose proof (dealt_below_size 17 _ ltac:(lia) Hde) as Sd.
  pose proof (count_aces_Permutation _ _ Hd) as Ha.
  pose proof (Permutation_length Hd) as Hl.
  unfold all_cards in Ha, Hl.
  rewrite !count_aces_app in Ha. rewrite !length_app in Hl.
  change (count_aces Deck_cards) with 4 in Ha.
  change (length Deck_cards) with 52%nat in Hl.
  pose proof (count_aces_le_hard (cards (shoe g))) as H1.
  pose proof (count_aces_le_hard (garbage_pile (shoe g))) as H2.
  split; lia.
Qed.

(** In the course of a round the pool is never empty. *)
Lemma playing_pool (g : Game) :
  playing g -> exists rest c, cards (shoe g) = rest ++ [c].
Proof.
  intros [Ha Hp]. destruct (accounted_hands g Ha) as [Hh Hl].
  destruct (cards (shoe g)) as [| a l] using rev_ind.
  - cbn in Hl. lia.
  - eauto.
Qed.

(** ** Dealing in a game in good order *)

(** The game after the last card [c] of the pool went to the user, and
    to the dealer. *)
Lemma deal_user_exact {A} (k : M A) (w : World) (rest : list Card) (c : Card) :
  cards (shoe (game w)) = rest ++ [c] ->
  (x <- shoe_deal_card ;; user_add_card x ;;; k) w =
  k (mkWorld
       (mkGame (dealer (game w))
               (mkUser (Hand_add_card c (user_hand (user (game w))))
                       (chips (user (game w))))
               (mkShoe rest (garbage_pile (shoe (game w)))
                       (card_counter (shoe (game w)) + 1)
                       (total_cards (shoe (game w)))))
       (stdin w) (stdout w) (random w)).
Proof.
  intros E. run_monad. unfold deal_card. rewrite E, pop_snoc. reflexivity.
Qed.

Lemma deal_dealer_exact {A} (k : M A) (w : World) (rest : list Card) (c : Card) :
  cards (shoe (game w)) = rest ++ [c] ->
  (x <- shoe_deal_card ;; dealer_add_card x ;;; k) w =
  k (mkWorld
       (mkGame (mkDealer (Hand_add_card c (dealer_hand (dealer (game w)))))
               (user (game w))
               (mkShoe rest (garbage_pile (shoe (game w)))
                       (card_counter (shoe (game w)) + 1)
                       (total_cards (shoe (game w)))))
       (stdin w) (stdout w) (random w)).
Proof.
  intros E. run_monad. unfold deal_card. rewrite E, pop_snoc. reflexivity.
Qed.

Lemma hit_exact {A} (k : M A) (w : World) (rest : list Card) (c : Card) :
  cards (shoe (game w)) = rest ++ [c] ->
  (card <- shoe_deal_card ;;
   print2 "Card is" (str_card card) ;;;
   user_add_card card ;;; k) w =
  k (mkWorld
       (mkGame (dealer (game w))
               (mkUser (Hand_add_card c (user_hand (user (game w))))
                       (chips (user (game w))))
               (mkShoe rest (garbage_pile (shoe (game w)))
                       (card_counter (shoe (game w)) + 1)
                       (total_cards (shoe (game w)))))
       (stdin w)
       (stdout w ++ [(("Card is" ++ " " ++ Card_str c) ++ nl)%string])
       (random w)).
Proof.
  intros E. run_monad. unfold deal_card. rewrite E, pop_snoc. reflexivity.
Qed.

(** A card that goes from the pool to a hand that may be hit leaves the
    game in the course of its round. *)
Lemma playing_deal_user (g : Game) (rest : list Card) (c : Card) :
  playing g -> cards (shoe g) = rest ++ [c] ->
  hand_value (user_hand (user g)) < 21 ->
  playing (mkGame (dealer g)
                  (mkUser (Hand_add_card c (user_hand (user g))) (chips (user g)))
                  (mkShoe rest (garbage_pile (shoe g)) (card_counter (shoe g) + 1)
                          (total_cards (shoe g)))).
Proof.
  intros [[Hd Hu Hde Hc Ht] Hp] E Hv. split; [| exact Hp].
  constructor; cbn; auto.
  - unfold all_cards in *. cbn. rewrite Hand_add_card_cards.
    rewrite <- Hd, E. rewrite <- !app_assoc. cbn [app].
    rewrite <- !Permutation_middle, ?app_nil_r. reflexivity.
  - apply below_add; assumption.
  - rewrite Hand_add_card_cards, length_app. cbn [length]. lia.
Qed.

Lemma playing_deal_dealer (g : Game) (rest : list Card) (c : Card) :
  playing g -> cards (shoe g) = rest ++ [c] ->
  hand_value (dealer_hand (dealer g)) < 17 ->
  playing (mkGame (mkDealer (Hand_add_card c (dealer_hand (dealer g))))
                  (user g)
                  (mkShoe rest (garbage_pile (shoe g)) (card_counter (shoe g) + 1)
                          (total_cards (shoe g)))).
Proof.
  intros [[Hd Hu Hde Hc Ht] Hp] E Hv. split; [| exact Hp].
  constructor; cbn; auto.
  - unfold all_cards in *. cbn. rewrite Hand_add_card_cards.
    rewrite <- Hd, E. rewrite <- !app_assoc. cbn [app].
    rewrite <- !Permutation_middle, ?app_nil_r. reflexivity.
  - apply below_add; assumption.
  - rewrite Hand_add_card_cards, length_app. cbn [length]. lia.
Qed.

Lemma add_card_value_le (c : Card) (h : Hand) :
  0 <= number_of_aces h ->
  hand_value (Hand_add_card c h) <= Z.max (hand_value h + 10) 21.
Proof.
  intros Hn. destruct (Hand_add_card_value c h) as (Ev & _). cbn zeta in Ev.
  pose proof (hard_points_bounds c) as (Hb & Hp & Hq).
  rewrite Ev, Hp.
  destruct (is_ace c);
    match goal with |- context [?a >? 21] => destruct (Z.gtb_spec a 21) end;
    cbn [andb];
    try match goal with |- context [?a >? 0] => destruct (Z.gtb_spec a 0) end;
    lia.
Qed.

Lemma dealt_below_aces (k : Z) (h : Hand) :
  k <= 21 -> dealt_below k h -> 0 <= number_of_aces h.
Proof.
  intros Hk H. apply (dealt_below_in_play k) in H; [| exact Hk].
  apply dealt_in_play_books in H. lia.
Qed.

(** ** The turns in a game in good order *)

Lemma dealer_move_loop_safe (fuel : nat) (w : World) :
  (length (cards (shoe (game w))) < fuel)%nat ->
  playing (game w) ->
  match dealer_move_loop fuel w with
  | Ok _ w' =>
      playing (game w') /\ user (game w') = user (game w) /\
      stdin w' = stdin w /\ stdout w' = stdout w /\ random w' = random w /\
      17 <= hand_value (dealer_hand (dealer (game w'))) /\
      hand_value (dealer_hand (dealer (game w')))
        <= Z.max 26 (hand_value (dealer_hand (dealer (game w))))
  | Raised _ _ => False
  | OutOfFuel => False
  end.
Proof.
  revert w. induction fuel as [| k IH]; intros w Hf Hp; [lia |].
  change (dealer_move_loop (S k) w)
    with ((if advised_to_hit (dealer (game w))
           then (card <- shoe_deal_card ;; dealer_add_card card ;;; dealer_move_loop k)
           else ret tt) w).
  unfold advised_to_hit.
  destruct (Z.ltb_spec (hand_value (dealer_hand (dealer (game w)))) 17) as [Hv | Hv].
  - destruct (playing_pool _ Hp) as (rest & c & E).
    rewrite (deal_dealer_exact (dealer_move_loop k) w rest c E).
    pose proof (playing_deal_dealer _ rest c Hp E Hv) as Hp1.
    pose proof (add_card_value_le c (dealer_hand (dealer (game w)))
                  (dealt_below_aces 17 _ ltac:(lia) (acc_dealer _ (proj1 Hp)))) as Hle.
    match goal with |- context [dealer_move_loop k ?x] =>
      specialize (IH x); destruct (dealer_move_loop k x) as [[] w' | e w' |]
    end;
      cbn [game shoe cards stdin stdout random user dealer dealer_hand] in IH;
      rewrite E, length_app in Hf; cbn [length] in Hf;
      assert (Hk : (length rest < k)%nat) by lia;
      specialize (IH Hk Hp1); try contradiction.
    destruct IH as (Hq & Hu & Hi & Ho & Hr & H17 & H26).
    split; [exact Hq |]. repeat apply conj; auto. lia.
  - cbn. split; [exact Hp |]. repeat apply conj; auto; lia.
Qed.

Lemma user_move_loop_safe (fuel : nat) (w : World) :
  (length (stdin w) < fuel)%nat ->
  playing (game w) ->
  match user_move_loop fuel w with
  | Ok _ w' =>
      playing (game w') /\ dealer (game w') = dealer (game w) /\
      chips (user (game w')) = chips (user (game w)) /\
      hand_value (user_hand (user (game w')))
        <= Z.max 30 (hand_value (user_hand (user (game w))))
  | Raised e w' =>
      e = GameError "EOFError" /\ chips (user (game w')) = chips (user (game w))
  | OutOfFuel => False
  end.
Proof.
  revert w. induction fuel as [| k IH]; intros w Hf Hp; [lia |].
  change (user_move_loop (S k) w)
    with ((if can_hit (user_hand (user (game w)))
          then (move <- user_response "Would you like to hit or stand? " ;;
                match move with
                | hit =>
                    card <- shoe_deal_card ;;
                    print2 "Card is" (str_card card) ;;;
                    user_add_card card ;;;
                    u' <- get_user ;;
                    print2 "Hand value is" (str_int (hand_value (user_hand u'))) ;;;
                    user_move_loop k
                | stand => ret tt
                end)
          else ret tt) w).
  unfold can_hit.
  destruct (Z.ltb_spec (hand_value (user_hand (user (game w)))) 21) as [Hv | Hv];
    [| cbn; split; [exact Hp |]; repeat apply conj; auto; lia].
  unfold bind at 1, user_response.
  pose proof (asking_words_spec "Would you like to hit or stand? " "Invalid input." accept_move w) as Hr.
  destruct (asking _ _ _ w) as [move wa | e wa |];
    [| destruct Hr as (-> & -> & _); auto | contradiction].
  destruct Hr as (Hg & Hl & _).
  destruct move; [cbn; rewrite Hg; split; [exact Hp |]; repeat apply conj; auto; lia |].
  rewrite <- Hg in Hp, Hv.
  destruct (playing_pool _ Hp) as (rest & c & E).
  match goal with
  | |- context [bind shoe_deal_card ?f wa] =>
      match f with
      | (fun card => bind _ (fun _ => bind _ (fun _ => ?K))) =>
          rewrite (hit_exact K wa rest c E)
      end
  end.
  pose proof (playing_deal_user _ rest c Hp E Hv) as Hp1.
  pose proof (add_card_value_le c (user_hand (user (game wa)))
                (dealt_below_aces 21 _ ltac:(lia) (acc_user _ (proj1 Hp)))) as Hle.
  match goal with |- context [bind get_user ?f ?x] => set (w1 := x) end.
  change ((u' <- get_user ;;
           print2 "Hand value is" (str_int (hand_value (user_hand u'))) ;;;
           user_move_loop k) w1)
    with ((print ("Hand value is" ++ " " ++
                  str_int (hand_value (user_hand (user (game w1)))))%string ;;;
           user_move_loop k) w1).
  destruct (print_step ("Hand value is" ++ " " ++
                        str_int (hand_value (user_hand (user (game w1)))))%string
              (user_move_loop k) w1) as (w2 & -> & _ & Hi2 & Hg2).
  specialize (IH w2). rewrite Hg2, Hi2 in IH. subst w1.
  cbn [game stdin user dealer chips user_hand] in IH.
  assert (Hk : (length (stdin wa) < k)%nat) by lia.
  specialize (IH Hk Hp1).
  destruct (user_move_loop k w2) as [[] w' | e w' |]; [| rewrite <- Hg; exact IH | exact IH].
  destruct IH as (Hq & Hd & Hc & H30).
  rewrite <- Hg. split; [exact Hq |]. repeat apply conj; auto. lia.
Qed.

(** ** The initial deal *)

Lemma deal_user_last (w : World) (rest : list Card) (c : Card) :
  cards (shoe (game w)) = rest ++ [c] ->
  (x <- shoe_deal_card ;; user_add_card x) w =
  Ok tt (mkWorld
           (mkGame (dealer (game w))
                   (mkUser (Hand_add_card c (user_hand (user (game w))))
                           (chips (user (game w))))
                   (mkShoe rest (garbage_pile (shoe (game w)))
                           (card_counter (shoe (game w)) + 1)
                           (total_cards (shoe (game w)))))
           (stdin w) (stdout w) (random w)).
Proof.
  intros E. run_monad. unfold deal_card. rewrite E, pop_snoc. reflexivity.
Qed.

Lemma initial_deal_four (w : World) (rest : list Card) (c1 c2 c3 c4 : Card) :
  cards (shoe (game w)) = rest ++ [c4; c3; c2; c1] ->
  exists w',
    initial_deal w = Ok tt w' /\
    dealer_hand (dealer (game w')) =
      Hand_add_card c3 (Hand_add_card c1 (dealer_hand (dealer (game w)))) /\
    user_hand (user (game w')) =
      Hand_add_card c4 (Hand_add_card c2 (user_hand (user (game w)))) /\
    chips (user (game w')) = chips (user (game w)) /\
    cards (shoe (game w')) = rest /\
    garbage_pile (shoe (game w')) = garbage_pile (shoe (game w)) /\
    card_counter (shoe (game w')) = card_counter (shoe (game w)) + 4 /\
    total_cards (shoe (game w')) = total_cards (shoe (game w)) /\
    stdin w' = stdin w /\ stdout w' = stdout w /\ random w' = random w.
Proof.
  intros E. unfold initial_deal.
  rewrite (deal_dealer_exact _ w (rest ++ [c4; c3; c2]) c1)
    by (rewrite E, <- app_assoc; reflexivity).
  rewrite (deal_user_exact _ _ (rest ++ [c4; c3]) c2)
    by (cbn; rewrite <- app_assoc; reflexivity).
  rewrite (deal_dealer_exact _ _ (rest ++ [c4]) c3)
    by (cbn; rewrite <- app_assoc; reflexivity).
  rewrite (deal_user_last _ rest c4) by reflexivity.
  eexists. split; [reflexivity |]. cbn.
  repeat apply conj; try reflexivity. lia.
Qed.

(** X7: the initial deal takes the last four cards of the pool, the
    last one first: the dealer gets the first and the third card dealt,
    the user the second and the fourth, and four more cards count as
    dealt.  With fewer than four cards in the pool it raises
    [AttributeError]. *)
Theorem initial_deal_order (w : World) :
  (forall rest c1 c2 c3 c4,
     cards (shoe (game w)) = rest ++ [c4; c3; c2; c1] ->
     exists w',
       initial_deal w = Ok tt w' /\
       dealer_hand (dealer (game w')) =
         Hand_add_card c3 (Hand_add_card c1 (dealer_hand (dealer (game w)))) /\
       user_hand (user (game w')) =
         Hand_add_card c4 (Hand_add_card c2 (user_hand (user (game w)))) /\
       chips (user (game w')) = chips (user (game w)) /\
       cards (shoe (game w')) = rest /\
       garbage_pile (shoe (game w')) = garbage_pile (shoe (game w)) /\
       card_counter (shoe (game w')) = card_counter (shoe (game w)) + 4 /\
       total_cards (shoe (game w')) = total_cards (shoe (game w)) /\
       stdin w' = stdin w /\ stdout w' = stdout w /\ random w' = random w) /\
  ((length (cards (shoe (game w))) < 4)%nat ->
   exists w', initial_deal w = Raised AttributeError w').
Proof.
  split.
  - intros rest c1 c2 c3 c4 E. apply initial_deal_four. exact E.
  - intros Hl. unfold initial_deal.
    destruct (deal_dealer_step
                (c2 <- shoe_deal_card ;; user_add_card c2 ;;;
                 c3 <- shoe_deal_card ;; dealer_add_card c3 ;;;
                 c4 <- shoe_deal_card ;; user_add_card c4) w)
      as [[_ H] | (w1 & _ & _ & _ & _ & L1 & ->)]; [exact H |].
    destruct (deal_user_step
                (c3 <- shoe_deal_card ;; dealer_add_card c3 ;;;
                 c4 <- shoe_deal_card ;; user_add_card c4) w1)
      as [[_ H] | (w2 & _ & _ & _ & _ & L2 & ->)]; [exact H |].
    destruct (deal_dealer_step (c4 <- shoe_deal_card ;; user_add_card c4) w2)
      as [[_ H] | (w3 & _ & _ & _ & _ & L3 & ->)]; [exact H |].
    assert (E3 : cards (shoe (game w3)) = []).
    { destruct (cards (shoe (game w3))); [reflexivity | cbn in L3; lia]. }
    run_monad. rewrite (deal_card_empty _ E3). run_monad. eauto.
Qed.

Lemma initial_deal_order_witness :
  let w := mkWorld (mkGame Dealer_init User_init
                           (mkShoe [mkCard two clubs; mkCard ten spades; mkCard six hearts;
                                    mkCard nine diamonds; mkCard ace clubs] [] 0 5))
                   [] [] (mkRandom (fun n => n) 0) in
  cards (shoe (game w)) =
    [mkCard two clubs] ++ [mkCard ten spades; mkCard six hearts;
                           mkCard nine diamonds; mkCard ace clubs] /\
  exists w',
    initial_deal w = Ok tt w' /\
    hand_cards (dealer_hand (dealer (game w'))) = [mkCard ace clubs; mkCard six hearts] /\
    hand_cards (user_hand (user (game w'))) = [mkCard nine diamonds; mkCard ten spades].
Proof.
  intros w.
  assert (E : cards (shoe (game w)) =
              [mkCard two clubs] ++ [mkCard ten spades; mkCard six hearts;
                                     mkCard nine diamonds; mkCard ace clubs])
    by reflexivity.
  split; [exact E |].
  destruct (proj1 (initial_deal_order w) _ _ _ _ _ E) as (w' & H & Hd & Hu & _).
  exists w'. split; [exact H |]. rewrite Hd, Hu. split; reflexivity.
Defined.

(** ** A round and a session in a game in good order *)

Lemma accounted_ext (g g' : Game) :
  user_hand (user g') = user_hand (user g) ->
  dealer_hand (dealer g') = dealer_hand (dealer g) ->
  shoe g' = shoe g ->
  accounted g -> accounted g'.
Proof.
  intros Hu Hd Hs [A1 A2 A3 A4 A5].
  constructor; unfold all_cards in *; rewrite ?Hu, ?Hd, ?Hs; assumption.
Qed.

Lemma first_card_value (c : Card) :
  hand_value (Hand_add_card c Hand_init) = card_points c /\ card_points c <= 11.
Proof.
  destruct (Hand_add_card_value c Hand_init) as (Ev & _). cbn zeta in Ev.
  pose proof (card_points_bounds c) as Hb. rewrite Ev. cbn [hand_value Hand_init].
  destruct (Z.gtb_spec (0 + card_points c) 21); cbn [andb]; lia.
Qed.

Lemma initial_deal_safe (w : World) :
  playing (game w) ->
  user_hand (user (game w)) = Hand_init ->
  dealer_hand (dealer (game w)) = Hand_init ->
  exists w',
    initial_deal w = Ok tt w' /\ playing (game w') /\
    hand_cards (dealer_hand (dealer (game w'))) <> [] /\
    stdin w' = stdin w /\ chips (user (game w')) = chips (user (game w)).
Proof.
  intros Hp Hu Hd.
  destruct (playing_pool _ Hp) as (r1 & c1 & E1).
  pose proof (playing_deal_dealer _ r1 c1 Hp E1 ltac:(rewrite Hd; reflexivity)) as P1.
  destruct (playing_pool _ P1) as (r2 & c2 & E2). cbn in E2. subst r1.
  pose proof (playing_deal_user _ r2 c2 P1 eq_refl
                ltac:(cbn; rewrite Hu; reflexivity)) as P2.
  cbn in P2.
  destruct (playing_pool _ P2) as (r3 & c3 & E3). cbn in E3. subst r2.
  pose proof (first_card_value c1) as [V1 B1].
  pose proof (first_card_value c2) as [V2 B2].
  pose proof (playing_deal_dealer _ r3 c3 P2 eq_refl
                ltac:(cbn; rewrite Hd, V1; lia)) as P3.
  cbn in P3.
  destruct (playing_pool _ P3) as (r4 & c4 & E4). cbn in E4. subst r3.
  pose proof (playing_deal_user _ r4 c4 P3 eq_refl
                ltac:(cbn; rewrite Hu, V2; lia)) as P4.
  cbn in P4.
  rewrite <- !app_assoc in E1. cbn [app] in E1.
  destruct (initial_deal_four w _ _ _ _ _ E1)
    as (w' & H & Hd' & Hu' & Hc' & Hk' & Hg' & Hn' & Ht' & Hi' & _).
  exists w'. split; [exact H |]. split; [| split; [| split; [exact Hi' | exact Hc']]].
  - destruct P4 as [A4 G4]. split.
    + eapply accounted_ext; [| | | exact A4]; cbn.
      * exact Hu'.
      * exact Hd'.
      * destruct (shoe (game w')). cbn in *. subst.
        f_equal. lia.
    + rewrite Hg'. exact G4.
  - rewrite Hd', Hand_add_card_cards. intros E. apply app_eq_nil in E as [_ E].
    discriminate.
Qed.

Lemma print_initial_table_ok (w : World) :
  hand_cards (dealer_hand (dealer (game w))) <> [] ->
  exists w', print_initial_table w = Ok tt w' /\ game w' = game w /\ stdin w' = stdin w.
Proof.
  intros H. unfold print_initial_table, print_initial_dealer_hand.
  cbv beta iota zeta delta
    [bind get_user get_dealer get_game ret print_hand_and_value print2 print write].
  cbn [game stdin stdout random].
  destruct (hand_cards (dealer_hand (dealer (game w)))) as [| c l]; [contradiction |].
  cbn. eauto.
Qed.

Lemma reshuffle_ready {A} (k : M A) (w : World) :
  ready (game w) ->
  exists w1,
    (required <- shoe_shuffle_required ;;
     (if required then shoe_shuffle_cards else ret tt) ;;; k) w = k w1 /\
    ready (game w1) /\ (length (garbage_pile (shoe (game w1))) <= 26)%nat /\
    user (game w1) = user (game w) /\ stdin w1 = stdin w /\ stdout w1 = stdout w.
Proof.
  intros (Ha & Hu & Hd).
  cbv beta iota zeta delta
    [bind shoe_shuffle_required shuffle_required get_game ret put_shoe put_game].
  cbn [game stdin stdout random dealer user shoe].
  destruct (half_lt _ _) eqn:Eh.
  - unfold shoe_shuffle_cards, shuffle_cards.
    cbn [game stdin stdout random dealer user shoe].
    pose proof (shuffle_Permutation
                  (cards (shoe (game w)) ++ garbage_pile (shoe (game w))) (random w)) as HP.
    destruct (shuffle _ (random w)) as [cs r]. cbn [fst] in HP.
    eexists. split; [reflexivity |]. cbn.
    split; [| repeat apply conj; auto; lia].
    split; [| split; assumption].
    destruct Ha as [A1 A2 A3 A4 A5].
    constructor;
      cbn [shoe user dealer cards garbage_pile card_counter total_cards]; auto.
    + unfold all_cards in *.
      cbn [shoe user dealer cards garbage_pile app].
      rewrite HP, <- app_assoc. exact A1.
    + rewrite Hu, Hd. reflexivity.
  - eexists. split; [reflexivity |]. cbn.
    assert (Hn : ~ (card_counter (shoe (game w)) * 2 > total_cards (shoe (game w)))).
    { intros Hgt. apply half_lt_spec in Hgt. congruence. }
    pose proof (acc_count _ Ha) as Hc. pose proof (acc_total _ Ha) as Ht.
    rewrite Hu, Hd in Hc. cbn in Hc.
    split; [| repeat apply conj; auto; lia].
    split; [| split; assumption].
    eapply accounted_ext; [| | | exact Ha]; reflexivity.
Qed.

Lemma number_of_chips_to_bet_raised (w : World) (e : exn) (w' : World) :
  number_of_chips_to_bet w = Raised e w' -> game w' = game w.
Proof.
  intros H. pose proof (number_of_chips_to_bet_spec w) as S. rewrite H in S.
  destruct S as [(_ & _ & ->) | (_ & Hg & _)]; [reflexivity | exact Hg].
Qed.

Lemma play_round_safe (w : World) :
  ready (game w) ->
  (length (garbage_pile (shoe (game w))) <= 26)%nat ->
  match play_round w with
  | Ok _ w' => ready (game w')
  | Raised e w' =>
      ((exists message, e = GameError message) \/ e = ValueError) /\
      (0 <= chips (user (game w)) -> 0 <= chips (user (game w')))
  | OutOfFuel => False
  end.
Proof.
  intros (Ha & Hu & Hd) Hg. unfold play_round. unfold bind at 1.
  pose proof (number_of_chips_to_bet_spec w) as Hb.
  pose proof (number_of_chips_to_bet_raised w) as Hbr.
  destruct (number_of_chips_to_bet w) as [B w1 | e w1 |]; [| | contradiction].
  2: { rewrite (Hbr e w1 eq_refl).
       destruct Hb as [(_ & -> & _) | (_ & _ & [[-> _] | [-> _]])];
         (split; [eauto | auto]). }
  clear Hbr. destruct Hb as (HB & Hg1 & _).
  cbv beta iota delta [bind get_user get_game ret put_user put_game].
  cbn [game stdin stdout random dealer user shoe].
  set (w2 := mkWorld _ (stdin w1) (stdout w1) (random w1)).
  assert (P2 : playing (game w2)).
  { split.
    - eapply accounted_ext; [| | | exact Ha]; subst w2; cbn; rewrite Hg1; reflexivity.
    - subst w2. cbn. rewrite Hg1. exact Hg. }
  assert (Hu2 : user_hand (user (game w2)) = Hand_init)
    by (subst w2; cbn; rewrite Hg1; exact Hu).
  assert (Hd2 : dealer_hand (dealer (game w2)) = Hand_init)
    by (subst w2; cbn; rewrite Hg1; exact Hd).
  assert (Hc2 : chips (user (game w2)) = chips (user (game w)) - B)
    by (subst w2; cbn; rewrite Hg1; reflexivity).
  clearbody w2.
  destruct (initial_deal_safe w2 P2 Hu2 Hd2) as (w3 & -> & P3 & Hne & _ & Hc3).
  destruct (print_initial_table_ok w3 Hne) as (w4 & -> & Hg4 & _).
  rewrite <- Hg4 in P3, Hc3.
  pose proof (user_move_loop_safe (S (length (stdin w4))) w4 ltac:(lia) P3) as H5.
  change (user_move_loop (S (length (stdin w4))) w4) with (user_move w4) in H5.
  destruct (user_move w4) as [[] w5 | e w5 |]; [| | contradiction].
  2: { destruct H5 as [-> H5]. split; [left; eauto |]. intros _. lia. }
  destruct H5 as (P5 & _).
  assert (H6 : match (if negb (is_bust (user_hand (user (game w5))))
                      then dealer_move else (fun w0 => Ok tt w0)) w5 with
               | Ok _ w' => playing (game w')
               | Raised _ _ => False
               | OutOfFuel => False
               end).
  { destruct (negb _); [| exact P5].
    pose proof (dealer_move_loop_safe (S (length (cards (shoe (game w5))))) w5
                  ltac:(lia) P5) as H.
    change (dealer_move_loop (S (length (cards (shoe (game w5))))) w5)
      with (dealer_move w5) in H.
    destruct (dealer_move w5); [apply H | exact H | exact H]. }
  destruct ((if negb (is_bust (user_hand (user (game w5))))
             then dealer_move else (fun w0 => Ok tt w0)) w5) as [[] w6 | e w6 |];
    [| contradiction | contradiction].
  destruct (results_run B w6) as (w7 & v & -> & _ & _ & Hu7 & Hd7 & Hs7 & _).
  assert (A7 : accounted (game w7)).
  { eapply accounted_ext; [exact Hu7 | rewrite Hd7; reflexivity | exact Hs7 | apply H6]. }
  destruct (return_cards_run w7)
    as (w8 & -> & _ & _ & _ & _ & Ht8 & Hc8 & Hk8 & Hg8 & Hu8 & Hd8 & _).
  split; [| split; assumption].
  destruct A7 as [A1 A2 A3 A4 A5].
  constructor; rewrite ?Hu8, ?Hd8; try apply below_empty.
  - unfold all_cards in *. rewrite Hu8, Hd8, Hc8, Hg8. cbn [hand_cards Hand_init].
    rewrite !app_nil_r. exact A1.
  - rewrite Hk8, Hg8, A4, !length_app. cbn. lia.
  - congruence.
Qed.

Lemma play_loop_safe (fuel : nat) (w : World) :
  (length (stdin w) < fuel)%nat ->
  ready (game w) ->
  match play_loop fuel w with
  | Ok _ w' =>
      ready (game w') /\
      (0 <= chips (user (game w)) -> 0 <= chips (user (game w')))
  | Raised e w' =>
      ((exists message, e = GameError message) \/ e = ValueError) /\
      (0 <= chips (user (game w)) -> 0 <= chips (user (game w')))
  | OutOfFuel => False
  end.
Proof.
  revert w. induction fuel as [| k IH]; intros w Hf Hr; [lia |].
  change (play_loop (S k) w)
    with ((if negb (has_chips (user (game w))) then ret tt
           else
             response <- yes_or_no ("You have " ++ str_int (chips (user (game w))) ++
                                    " chips. Would you like to play a round? ")%string ;;
             if response then
               required <- shoe_shuffle_required ;;
               (if required then shoe_shuffle_cards else ret tt) ;;;
               play_round ;;;
               play_loop k
             else ret tt) w).
  destruct (has_chips (user (game w))) eqn:Hh; cbn [negb]; [| cbn; auto].
  unfold bind at 1, yes_or_no.
  match goal with |- context [asking ?p ?c (fun line => answer_of (?a line)) w] =>
    pose proof (asking_words_spec p c a w) as Ha;
    destruct (asking p c (fun line => answer_of (a line)) w) as [resp wa | e wa |]
  end; [| destruct Ha as (-> & -> & _); split; [left; eauto | auto] | contradiction].
  destruct Ha as (Hg & Hl & _).
  destruct resp; [| cbn; rewrite Hg; auto].
  rewrite <- Hg in Hr.
  destruct (reshuffle_ready (play_round ;;; play_loop k) wa Hr)
    as (w1 & -> & Hr1 & Hg1 & Hu1 & Hi1 & _).
  unfold bind.
  pose proof (play_round_safe w1 Hr1 Hg1) as Hs.
  pose proof (play_round_spec w1) as Hp.
  rewrite Hu1, Hg in Hs.
  destruct (play_round w1) as [[] w2 | e w2 |]; [| exact Hs | contradiction].
  destruct Hp as (B & wb & v & _ & HB & _ & Hc & Hl2 & _).
  assert (Hk : (length (stdin w2) < k)%nat) by (rewrite Hi1 in Hl2; lia).
  specialize (IH w2 Hk Hs).
  assert (H0 : 0 <= chips (user (game w2))).
  { rewrite Hc. destruct v; cbn [payout]; lia. }
  destruct (play_loop k w2) as [[] w3 | e w3 |]; auto.
  - destruct IH as [Hr3 Hc3]. split; [exact Hr3 | auto].
  - destruct IH as [He Hc3]. split; [exact He | auto].
Qed.

Lemma Game_init_ready (r : Random) : ready (fst (Game_init r)).
Proof.
  unfold Game_init.
  destruct (Shoe_init_spec 1 r) as (HP & Hg & Hc & Ht).
  pose proof (Shoe_init_one_deck r) as (Hl & _ & _ & Ht52).
  destruct (Shoe_init 1 r) as [s r']. cbn [fst] in *.
  split; [| split; reflexivity].
  constructor; cbn [shoe user dealer User_init Dealer_init user_hand dealer_hand].
  - unfold all_cards.
    cbn [shoe user dealer User_init Dealer_init user_hand dealer_hand hand_cards Hand_init].
    rewrite Hg, !app_nil_r. exact HP.
  - apply below_empty.
  - apply below_empty.
  - rewrite Hg, Hc. reflexivity.
  - exact Ht52.
Qed.

Lemma Game_init_chips (r : Random) : chips (user (fst (Game_init r))) = 100.
Proof.
  unfold Game_init. destruct (Shoe_init 1 r). reflexivity.
Qed.

(** X8: whatever is typed and however the cards fall, [main] comes to
    an end, and in one of two ways.  Either it returns: the last two
    things it prints are then the chips of the user, which are not
    negative, and the thanks.  Or it dies of the [ValueError] that
    [int] raised on a bet.  No other exception leaves it: the pool never
    runs dry on a deal, no index is out of range and every [GameError]
    is caught. *)
Theorem main_returns_or_value_error (lines : list string) (r : Random) :
  (exists w',
     main lines r = Ok tt w' /\
     0 <= chips (user (game w')) /\
     exists shown,
       stdout w' =
         shown ++ [(("You have " ++ str_int (chips (user (game w'))) ++ " chips.") ++ nl)%string;
                   ("Thank you for playing!" ++ nl)%string]) \/
  (exists w', main lines r = Raised ValueError w').
Proof.
  unfold main. pose proof (Game_init_ready r) as Hr.
  pose proof (Game_init_chips r) as H100.
  destruct (Game_init r) as [g r']. cbn [fst] in Hr, H100.
  pose proof (play_loop_safe (S (length lines)) (mkWorld g lines [] r')
                ltac:(cbn; lia) Hr) as H.
  change (play_loop (S (length lines)) (mkWorld g lines [] r'))
    with (play (mkWorld g lines [] r')) in H.
  destruct (play (mkWorld g lines [] r')) as [[] w | e w |]; [| | contradiction].
  - destruct H as [_ Hc]. cbn [game] in Hc.
    left. eexists. split; [reflexivity |]. cbn.
    split; [apply Hc; lia |]. exists (stdout w).
    rewrite <- app_assoc. reflexivity.
  - destruct H as [[[message ->] | ->] Hc]; cbn [game] in Hc.
    + left. eexists. split; [reflexivity |]. cbn.
      split; [apply Hc; lia |].
      exists (stdout w ++ [("Game ending error occcurred." ++ nl)%string]).
      rewrite <- (app_assoc _ _ [_]). reflexivity.
    + right. exists w. reflexivity.
Qed.

Lemma opening_ready (lines : list string) :
  ready (game (opening lines)) /\
  playing (game (opening lines)) /\
  stdin (opening lines) = lines.
Proof.
  unfold opening.
  pose proof (Game_init_ready (mkRandom (fun n => (n * 7 + 3)%nat) 0)) as Hr.
  assert (Hg : garbage_pile (shoe (fst (Game_init (mkRandom (fun n => (n * 7 + 3)%nat) 0)))) = []).
  { unfold Game_init.
    pose proof (Shoe_init_one_deck (mkRandom (fun n => (n * 7 + 3)%nat) 0)) as (_ & G & _).
    destruct (Shoe_init 1 _). exact G. }
  destruct (Game_init _) as [g r]. cbn [fst game stdin] in *.
  repeat apply conj; try apply Hr; try reflexivity.
  rewrite Hg. cbn. lia.
Qed.

(** ** The failure of a deal *)





(** X9: in a game of one deck in good order, the turn of the dealer
    always comes to an end without an exception; it reads nothing,
    prints nothing and leaves the user as he is; the dealer ends on 17
    or more, and on 26 at most when the turn began below 17. *)
Theorem dealer_turn (w : World) :
  playing (game w) ->
  exists w',
    dealer_move w = Ok tt w' /\ playing (game w') /\
    user (game w') = user (game w) /\
    stdin w' = stdin w /\ stdout w' = stdout w /\ random w' = random w /\
    17 <= hand_value (dealer_hand (dealer (game w'))) /\
    hand_value (dealer_hand (dealer (game w')))
      <= Z.max 26 (hand_value (dealer_hand (dealer (game w)))).
Proof.
  intros Hp.
  pose proof (dealer_move_loop_safe (S (length (cards (shoe (game w))))) w
                ltac:(lia) Hp) as H.
  change (dealer_move_loop (S (length (cards (shoe (game w))))) w)
    with (dealer_move w) in H.
  destruct (dealer_move w) as [[] w' | e w' |]; [| contradiction | contradiction].
  exists w'. split; [reflexivity | exact H].
Qed.

Lemma dealer_turn_witness :
  playing (game (opening [])) /\
  exists w',
    dealer_move (opening []) = Ok tt w' /\
    17 <= hand_value (dealer_hand (dealer (game w'))) <= 26.
Proof.
  pose proof (proj1 (proj2 (opening_ready []))) as Hp.
  split; [exact Hp |].
  destruct (dealer_turn (opening []) Hp) as (w' & H & _ & _ & _ & _ & _ & H17 & H26).
  exists w'. split; [exact H |]. split; [exact H17 |].
  assert (E : hand_value (dealer_hand (dealer (game (opening [])))) = 0).
  { destruct (opening_ready []) as ((_ & _ & ->) & _). reflexivity. }
  rewrite E in H26. lia.
Defined.

(** X10: in a game of one deck in good order, the turn of the user
    either comes to an end in good order, with the dealer and the chips
    as they were and the hand at 30 at most when it began below 21, or
    stops on the [GameError] for the end of input, the chips as they
    were; it raises nothing else, the pool never running dry. *)
Theorem user_turn (w : World) :
  playing (game w) ->
  match user_move w with
  | Ok _ w' =>
      playing (game w') /\ dealer (game w') = dealer (game w) /\
      chips (user (game w')) = chips (user (game w)) /\
      hand_value (user_hand (user (game w')))
        <= Z.max 30 (hand_value (user_hand (user (game w))))
  | Raised e w' =>
      e = GameError "EOFError" /\ chips (user (game w')) = chips (user (game w))
  | OutOfFuel => False
  end.
Proof.
  intros Hp. apply user_move_loop_safe; [lia | exact Hp].
Qed.

Lemma user_turn_witness :
  playing (game (opening ["h"; "x"; "S"])) /\
  exists w',
    user_move (opening ["h"; "x"; "S"]) = Ok tt w' /\
    chips (user (game w')) = 100 /\
    length (hand_cards (user_hand (user (game w')))) = 1%nat.
Proof.
  pose proof (proj1 (proj2 (opening_ready ["h"; "x"; "S"]))) as Hp.
  split; [exact Hp |].
  pose proof (user_turn (opening ["h"; "x"; "S"]) Hp) as H.
  destruct (user_move (opening ["h"; "x"; "S"])) as [[] w' | e w' |] eqn:E;
    [| vm_compute in E; discriminate | contradiction].
  exists w'. split; [reflexivity |].
  destruct H as (_ & _ & Hc & _). split.
  - rewrite Hc. vm_compute. reflexivity.
  - vm_compute in E. injection E as <-. reflexivity.
Defined.

(** X11: a round played in a game of one deck in good order, with no
    more than half the shoe in the pile, either runs to its end or
    stops on a [GameError] or on the [ValueError] of [int] on a bet; it
    never raises anything else.  When it ends, the 52 cards are in the
    pool and the pile again, both hands are new, the count of cards
    dealt is the size of the pile, and the chips are not negative if
    they were not. *)
Theorem round_in_good_order (w : World) :
  ready (game w) ->
  (length (garbage_pile (shoe (game w))) <= 26)%nat ->
  match play_round w with
  | Ok _ w' =>
      cards (shoe (game w')) ++ garbage_pile (shoe (game w')) ≡ₚ Deck_cards /\
      user_hand (user (game w')) = Hand_init /\
      dealer_hand (dealer (game w')) = Hand_init /\
      card_counter (shoe (game w')) = Z.of_nat (length (garbage_pile (shoe (game w')))) /\
      total_cards (shoe (game w')) = 52 /\
      ready (game w') /\
      (0 <= chips (user (game w)) -> 0 <= chips (user (game w')))
  | Raised e w' =>
      ((exists message, e = GameError message) \/ e = ValueError) /\
      (0 <= chips (user (game w)) -> 0 <= chips (user (game w')))
  | OutOfFuel => False
  end.
Proof.
  intros Hr Hg.
  pose proof (play_round_safe w Hr Hg) as Hs.
  pose proof (play_round_spec w) as Hp.
  destruct (play_round w) as [[] w' | e w' |]; [| exact Hs | contradiction].
  destruct Hp as (B & wb & v & _ & HB & _ & Hc & _).
  destruct Hs as (Ha & Hu & Hd).
  pose proof (acc_deck _ Ha) as A1. pose proof (acc_count _ Ha) as A4.
  unfold all_cards in A1. rewrite Hu, Hd in A1, A4.
  cbn [hand_cards Hand_init] in A1, A4. rewrite !app_nil_r in A1.
  repeat apply conj; auto.
  - rewrite A4. f_equal. cbn. lia.
  - apply (acc_total _ Ha).
  - intros H0. rewrite Hc. destruct v; cbn [payout]; lia.
Qed.

Lemma round_in_good_order_witness :
  ready (game (opening ["10"; "s"])) /\
  (length (garbage_pile (shoe (game (opening ["10"; "s"])))) <= 26)%nat /\
  exists w',
    play_round (opening ["10"; "s"]) = Ok tt w' /\
    cards (shoe (game w')) ++ garbage_pile (shoe (game w')) ≡ₚ Deck_cards /\
    user_hand (user (game w')) = Hand_init.
Proof.
  destruct (opening_ready ["10"; "s"]) as (Hr & (_ & Hg) & _).
  split; [exact Hr |]. split; [exact Hg |].
  pose proof (round_in_good_order (opening ["10"; "s"]) Hr Hg) as H.
  destruct (play_round (opening ["10"; "s"])) as [[] w' | e w' |] eqn:E;
    [| vm_compute in E; discriminate | contradiction].
  exists w'. split; [reflexivity |].
  destruct H as (H1 & H2 & _). split; assumption.
Defined.

(** X12: a session played from a game of one deck in good order, for
    as many rounds as the user asks for, either ends with the game in
    good order again or stops on a [GameError] or on the [ValueError]
    of [int] on a bet; it raises nothing else and always comes to an
    end, and chips that were not negative are not negative afterwards. *)
Theorem session_in_good_order (w : World) :
  ready (game w) ->
  match play w with
  | Ok _ w' =>
      ready (game w') /\
      (0 <= chips (user (game w)) -> 0 <= chips (user (game w')))
  | Raised e w' =>
      ((exists message, e = GameError message) \/ e = ValueError) /\
      (0 <= chips (user (game w)) -> 0 <= chips (user (game w')))
  | OutOfFuel => False
  end.
Proof.
  intros Hr. apply play_loop_safe; [lia | exact Hr].
Qed.

Lemma session_in_good_order_witness :
  ready (game (opening ["y"; "10"; "s"; "n"])) /\
  exists w',
    play (opening ["y"; "10"; "s"; "n"]) = Ok tt w' /\
    ready (game w') /\ 0 <= chips (user (game w')).
Proof.
  pose proof (proj1 (opening_ready ["y"; "10"; "s"; "n"])) as Hr.
  split; [exact Hr |].
  pose proof (session_in_good_order (opening ["y"; "10"; "s"; "n"]) Hr) as H.
  destruct (play (opening ["y"; "10"; "s"; "n"])) as [[] w' | e w' |] eqn:E;
    [| vm_compute in E; discriminate | contradiction].
  exists w'. split; [reflexivity |].
  destruct H as [H1 H2]. split; [exact H1 |]. apply H2.
  unfold opening. destruct (Game_init _) as [g r] eqn:Eg.
  pose proof (Game_init_chips (mkRandom (fun n => (n * 7 + 3)%nat) 0)) as Hc.
  rewrite Eg in Hc. cbn in *. lia.
Defined.

(** ** Asking *)

(** X13: the three questions of the game (play a round, the bet, hit or
    stand) are asked in the same way: each line that the test of the
    answer refuses is consumed and answered by the complaint and the
    prompt again.  The first line that the test does not refuse ends
    the question, and the lines after it stay unread: if the test
    accepts it, it is the answer; if the test raises on it, the
    question raises the same exception.  When the input ends before
    such a line, the question raises [GameError] with all the input
    consumed.  The game itself is not touched.  The tests for a round
    and for a move never raise; the test for a bet raises on the texts
    of digit characters that [int] does not read, and raises
    [ValueError]. *)
Theorem asking_takes_first_acceptable {A} (prompt complaint : string)
    (accept : string -> answer A) (w : World) (bad : list string) :
  Forall (fun line => accept line = Refused) bad ->
  let complaints := flat_map (fun _ => [prompt; (complaint ++ nl)%string]) bad in
  let after rest :=
    mkWorld (game w) rest (stdout w ++ complaints ++ [prompt]) (random w) in
  (forall good a rest,
     stdin w = bad ++ good :: rest -> accept good = Accepted a ->
     asking prompt complaint accept w = Ok a (after rest)) /\
  (forall line e rest,
     stdin w = bad ++ line :: rest -> accept line = Failed e ->
     asking prompt complaint accept w = Raised e (after rest)) /\
  (stdin w = bad ->
   asking prompt complaint accept w = Raised (GameError "EOFError") (after [])) /\
  (forall line e, answer_of (accept_move line) <> Failed e) /\
  (forall line e, answer_of (accept_yes_no line) <> Failed e) /\
  (forall min_bet max_bet line e,
     accept_bet min_bet max_bet line = Failed e <->
     e = ValueError /\ isdigit (strip line) = true /\ int (strip line) = None).
Proof.
  intros Hb complaints after.
  split; [| split; [| split; [| split; [| split; [| intros a b line e; split]]]]].
  - intros good a rest E Ha. unfold asking.
    rewrite E, (ask_first_acceptable _ _ _ bad (good :: rest) Hb).
    cbn [ask]. rewrite Ha. reflexivity.
  - intros line e rest E Ha. unfold asking.
    rewrite E, (ask_first_acceptable _ _ _ bad (line :: rest) Hb).
    cbn [ask]. rewrite Ha. reflexivity.
  - intros E. unfold asking.
    pose proof (ask_first_acceptable prompt complaint accept bad [] Hb) as H.
    rewrite app_nil_r in H. rewrite E, H.
    cbn [ask]. reflexivity.
  - intros line e. apply answer_of_Failed.
  - intros line e. apply answer_of_Failed.
  - intros H. apply (accept_bet_Failed _ _ _ _ H).
  - intros (-> & Hd & Hi). unfold accept_bet. rewrite Hd, Hi. reflexivity.
Qed.

Lemma asking_takes_first_acceptable_witness :
  let w := opening ["maybe"; ""; " YES "; "12"] in
  Forall (fun line => answer_of (accept_yes_no line) = Refused) ["maybe"; ""] /\
  yes_or_no "Again? " w =
  Ok true (mkWorld (game w) ["12"]
                   ["Again? "; ("Please respond yes or no." ++ nl)%string;
                    "Again? "; ("Please respond yes or no." ++ nl)%string;
                    "Again? "]
                   (random w)).
Proof.
  intros w.
  assert (Hb : Forall (fun line => answer_of (accept_yes_no line) = Refused) ["maybe"; ""])
    by (repeat constructor).
  split; [exact Hb |].
  assert (Hi : stdin w = ["maybe"; ""] ++ " YES " :: ["12"])
    by apply (opening_ready ["maybe"; ""; " YES "; "12"]).
  assert (Ho : stdout w = []).
  { unfold w, opening. destruct (Game_init _). reflexivity. }
  unfold yes_or_no.
  rewrite (proj1 (asking_takes_first_acceptable "Again? " "Please respond yes or no."
                    (fun line => answer_of (accept_yes_no line)) w ["maybe"; ""] Hb)
             " YES " true ["12"] Hi eq_refl).
  rewrite Ho. reflexivity.
Defined.

(** ** The session *)

(** X14: with no chips left, [play] returns at once: it asks nothing,
    prints nothing and leaves the game as it is.  With chips, a user
    whose first acceptable answer is a no is asked nothing else, and
    the game is left as it is. *)
Theorem play_without_a_round (w : World) :
  (has_chips (user (game w)) = false -> play w = Ok tt w) /\
  (has_chips (user (game w)) = true ->
   forall bad good rest,
     Forall (fun line => accept_yes_no line = None) bad ->
     stdin w = bad ++ good :: rest ->
     accept_yes_no good = Some false ->
     exists out, play w = Ok tt (mkWorld (game w) rest (stdout w ++ out) (random w))).
Proof.
  split.
  - intros H. unfold play. cbn [play_loop].
    cbv beta iota delta [bind get_user get_game ret]. rewrite H. reflexivity.
  - intros H bad good rest Hb E Ha. unfold play. cbn [play_loop].
    cbv beta iota delta [bind get_user get_game ret]. rewrite H. cbn [negb].
    unfold yes_or_no.
    match goal with |- context [asking ?p ?c (fun line => answer_of (?a line)) w] =>
      rewrite (asking_words_first p c a w bad good false rest Hb E Ha)
    end.
    eexists. reflexivity.
Qed.

Lemma play_without_a_round_witness :
  let broke := mkWorld (mkGame Dealer_init (mkUser Hand_init 0)
                               (shoe (game (opening ["y"]))))
                       ["y"] [] (random (opening ["y"])) in
  has_chips (user (game broke)) = false /\ play broke = Ok tt broke.
Proof.
  intros broke. split; [reflexivity |].
  apply (play_without_a_round broke). reflexivity.
Defined.

(** ** Answers as typed *)

Lemma is_space_lower (c : ascii) : is_space_char (lower_char c) = is_space_char c.
Proof.
  destruct c as [b0 b1 b2 b3 b4 b5 b6 b7].
  destruct b0, b1, b2, b3, b4, b5, b6, b7; vm_compute; reflexivity.
Qed.

Lemma lstrip_lower (s : string) : lstrip (lower s) = lower (lstrip s).
Proof.
  induction s as [| c s IH]; [reflexivity |].
  cbn [lower lstrip]. rewrite is_space_lower.
  destruct (is_space_char c); [exact IH | reflexivity].
Qed.

Lemma rstrip_lower (s : string) : rstrip (lower s) = lower (rstrip s).
Proof.
  induction s as [| c s IH]; [reflexivity |].
  cbn [lower rstrip]. rewrite IH, is_space_lower.
  destruct (rstrip s); cbn [lower]; [destruct (is_space_char c) |]; reflexivity.
Qed.

Lemma strip_lower (s : string) : strip (lower s) = lower (strip s).
Proof. unfold strip. rewrite lstrip_lower, rstrip_lower. reflexivity. Qed.

Lemma rstrip_idem (s : string) : rstrip (rstrip s) = rstrip s.
Proof.
  induction s as [| c s IH]; [reflexivity |].
  cbn [rstrip]. destruct (rstrip s) as [| c' s'] eqn:E.
  - destruct (is_space_char c) eqn:Ec; [reflexivity |].
    cbn [rstrip]. rewrite Ec. reflexivity.
  - cbn [rstrip] in *. rewrite IH. reflexivity.
Qed.

Lemma lstrip_head (s : string) :
  match lstrip s with
  | EmptyString => True
  | String c _ => is_space_char c = false
  end.
Proof.
  induction s as [| c s IH]; [exact I |].
  cbn [lstrip]. destruct (is_space_char c) eqn:E; [exact IH | exact E].
Qed.

Lemma strip_idem (s : string) : strip (strip s) = strip s.
Proof.
  unfold strip. pose proof (lstrip_head s) as H.
  destruct (lstrip s) as [| c t]; [reflexivity |].
  assert (Hr : exists t', rstrip (String c t) = String c t').
  { cbn [rstrip]. destruct (rstrip t); [rewrite H |]; eauto. }
  destruct Hr as [t' Hr]. rewrite Hr. cbn [lstrip]. rewrite H.
  rewrite <- Hr. apply rstrip_idem.
Qed.

(** X15: an answer is taken without regard to the case of its letters
    and to the blanks around it: two lines that differ in case only are
    both accepted as the same answer or both refused, and a line is
    treated as the line without its leading and trailing blanks is. *)
Theorem answers_ignore_case_and_blanks (line : string) :
  (forall line', lower line' = lower line ->
     accept_move line' = accept_move line /\
     accept_yes_no line' = accept_yes_no line) /\
  accept_move (strip line) = accept_move line /\
  accept_yes_no (strip line) = accept_yes_no line /\
  (forall min_bet max_bet,
     accept_bet min_bet max_bet (strip line) = accept_bet min_bet max_bet line).
Proof.
  repeat apply conj.
  - intros line' H.
    assert (E : lower (strip line') = lower (strip line))
      by (rewrite <- !strip_lower, H; reflexivity).
    unfold accept_move, accept_yes_no. rewrite E. split; reflexivity.
  - unfold accept_move. rewrite strip_idem. reflexivity.
  - unfold accept_yes_no. rewrite strip_idem. reflexivity.
  - intros min_bet max_bet. unfold accept_bet. rewrite strip_idem. reflexivity.
Qed.

Lemma answers_ignore_case_and_blanks_witness :
  lower "HiT" = lower "hit" /\
  accept_move "HiT" = accept_move "hit" /\
  accept_move "hit" = Some hit.
Proof.
  assert (E : lower "HiT" = lower "hit") by reflexivity.
  split; [exact E |]. split; [| reflexivity].
  destruct (proj1 (answers_ignore_case_and_blanks "hit") "HiT" E) as [H _].
  exact H.
Defined.

Lemma int_acc_digits (acc : Z) (d : Decimal.uint) :
  int_acc acc (NilEmpty.string_of_uint d) = uint_val acc d /\
  all_decimal (NilEmpty.string_of_uint d) = true.
Proof.
  revert acc. induction d as [| d IH | d IH | d IH | d IH | d IH | d IH
                              | d IH | d IH | d IH | d IH];
    intros acc; [split; reflexivity | ..];
    cbn -[Z.mul Z.add]; apply IH.
Qed.

Lemma uint_val_pos (acc : positive) (d : Decimal.uint) :
  uint_val (Zpos acc) d = Zpos (Pos.of_uint_acc d acc).
Proof.
  revert acc. induction d; intros acc; cbn [uint_val Pos.of_uint_acc];
    [reflexivity | rewrite <- IHd; f_equal; lia ..].
Qed.

Lemma uint_val_of_uint (d : Decimal.uint) : uint_val 0 d = Z.of_N (Pos.of_uint d).
Proof.
  induction d as [| d IH | d _ | d _ | d _ | d _ | d _ | d _ | d _ | d _ | d _];
    [reflexivity | exact IH | apply uint_val_pos ..].
Qed.

Lemma decimal_is_digit (c : ascii) : is_decimal_char c = true -> is_digit_char c = true.
Proof. unfold is_digit_char. intros ->. reflexivity. Qed.

Lemma all_decimal_digits (s : string) : all_decimal s = true -> all_digits s = true.
Proof.
  induction s as [| c s IH]; [reflexivity |].
  cbn [all_decimal all_digits]. intros H. apply andb_prop in H as [Hc Hs].
  rewrite (decimal_is_digit c Hc), (IH Hs). reflexivity.
Qed.

Lemma digit_not_space (c : ascii) : is_digit_char c = true -> is_space_char c = false.
Proof.
  destruct c as [b0 b1 b2 b3 b4 b5 b6 b7].
  destruct b0, b1, b2, b3, b4, b5, b6, b7; vm_compute; intros H;
    first [reflexivity | discriminate H].
Qed.

Lemma rstrip_digits (s : string) : all_digits s = true -> rstrip s = s.
Proof.
  induction s as [| c s IH]; [reflexivity |].
  cbn [all_digits rstrip]. intros H. apply andb_prop in H as [Hc Hs].
  rewrite (IH Hs). destruct s; [rewrite (digit_not_space c Hc) |]; reflexivity.
Qed.

Lemma strip_digits (s : string) : all_digits s = true -> strip s = s.
Proof.
  intros H. unfold strip.
  assert (E : lstrip s = s).
  { destruct s as [| c s]; [reflexivity |]. cbn [all_digits lstrip] in *.
    apply andb_prop in H as [Hc _]. rewrite (digit_not_space c Hc). reflexivity. }
  rewrite E. apply rstrip_digits, H.
Qed.

(** The decimal numeral of a number that is not negative is made of
    decimal digits, and [int] reads it back when it is not too long. *)
Lemma int_str_int (n : Z) :
  0 <= n ->
  Z.of_nat (String.length (str_int n)) <= int_max_str_digits ->
  isdigit (str_int n) = true /\ all_digits (str_int n) = true /\
  int (str_int n) = Some n.
Proof.
  intros Hn Hl. apply Z.leb_le in Hl.
  assert (H : str_int n <> EmptyString /\ all_decimal (str_int n) = true /\
              int_acc 0 (str_int n) = n).
  { destruct n as [| p | p]; [repeat split; discriminate | | lia].
    unfold str_int. cbn [Z.to_int NilZero.string_of_int].
    pose proof (DecimalPos.Unsigned.to_uint_nonnil p) as Hnil.
    unfold NilZero.string_of_uint.
    destruct (int_acc_digits 0 (Pos.to_uint p)) as [Hv Hd].
    rewrite uint_val_of_uint, DecimalPos.Unsigned.of_to in Hv.
    destruct (Pos.to_uint p) as [| d | d | d | d | d | d | d | d | d | d];
      [contradiction | ..]; (split; [discriminate | split; [exact Hd | exact Hv]]). }
  destruct H as (Hne & Hd & Hv).
  pose proof (all_decimal_digits _ Hd) as Hg.
  unfold isdigit, int. rewrite Hd, Hl, Hv, Hg.
  destruct (str_int n); [contradiction | auto].
Qed.

(** X16: a bet that is accepted lies between the minimum and the maximum,
    and a number between them, typed as Python prints it, is accepted
    as that very bet, as long as its numeral is one that [int] converts,
    of 4300 digits at most.  On a line of more than 4300 digit
    characters, blanks around them apart, the test of the bet raises
    [ValueError], whatever the minimum and the maximum. *)
Theorem bet_as_typed (min_bet max_bet n : Z) :
  0 <= n -> min_bet <= n <= max_bet ->
  Z.of_nat (String.length (str_int n)) <= int_max_str_digits ->
  accept_bet min_bet max_bet (str_int n) = Accepted n /\
  (forall line m, accept_bet min_bet max_bet line = Accepted m -> min_bet <= m <= max_bet) /\
  (forall line,
     isdigit (strip line) = true ->
     int_max_str_digits < Z.of_nat (String.length (strip line)) ->
     accept_bet min_bet max_bet line = Failed ValueError).
Proof.
  intros Hn Hr Hl. split; [| split; [intros line m; apply accept_bet_range |]].
  - destruct (int_str_int n Hn Hl) as (Hg & Hd & Hi).
    unfold accept_bet. rewrite (strip_digits _ Hd), Hg, Hi.
    destruct (Z.leb_spec min_bet n); [| lia].
    destruct (Z.leb_spec n max_bet); [reflexivity | lia].
  - intros line Hd Hlong. unfold accept_bet. rewrite Hd.
    apply Z.leb_gt in Hlong. unfold int. rewrite Hlong, andb_false_r.
    destruct (strip line); reflexivity.
Qed.

Lemma bet_as_typed_witness :
  0 <= 37 /\ 1 <= 37 <= 100 /\
  Z.of_nat (String.length (str_int 37)) <= int_max_str_digits /\
  accept_bet 1 100 (str_int 37) = Accepted 37.
Proof.
  assert (H0 : 0 <= 37) by lia.
  assert (H1 : 1 <= 37 <= 100) by lia.
  assert (H2 : Z.of_nat (String.length (str_int 37)) <= int_max_str_digits)
    by (apply Z.leb_le; reflexivity).
  split; [exact H0 |]. split; [exact H1 |]. split; [exact H2 |].
  exact (proj1 (bet_as_typed 1 100 37 H0 H1 H2)).
Defined.

(** ** Cards as printed *)

(** X17: no two cards print alike. *)
Theorem Card_str_inj (c1 c2 : Card) : Card_str c1 = Card_str c2 -> c1 = c2.
Proof.
  destruct c1 as [r1 s1], c2 as [r2 s2].
  destruct r1, s1, r2, s2; vm_compute; intros H;
    first [reflexivity | discriminate H].
Qed.

Lemma Card_str_inj_witness :
  Card_str (mkCard ten hearts) = "10 of Hearts" /\
  forall c, Card_str c = "10 of Hearts" -> c = mkCard ten hearts.
Proof.
  split; [reflexivity |].
  intros c H. apply (Card_str_inj c (mkCard ten hearts)). exact H.
Defined.
